(** * 3D Solar System Explorer: orbit model and camera controller

    A shallow embedding of the three variants of the program:

    - [ScriptJs]: script.js, pivot-based orbits, joystick camera with
      [yaw]/[pitch] at [camRadius];
    - [AppJs]: app.js, explicit orbit angles in [userData], joystick camera
      with [phi]/[theta] at [cameraDistance];
    - [MainJs]: main.js, nested pivots (planet and satellites), orbit speeds
      scaled by the elapsed time, OrbitControls camera.

    JavaScript numbers are IEEE-754 doubles.  The embedding idealises them as
    real numbers: [+], [-], [*], [/], [Math.min], [Math.max], [Math.cos],
    [Math.sin] and [Math.PI] are the exact operations of [R].  Every
    statement below is about this idealised arithmetic; rounding, infinities
    and NaN are outside the model. *)

From Stdlib Require Import Reals Lra Lia List ZArith String.
Import ListNotations.
Local Open Scope R_scope.

(** ** The part of Three.js the program relies on

    Three.js is a third-party library; only the behaviour of the members the
    program touches is recorded here. *)
Module THREE.

Record Vector3 := mkVector3 { x : R; y : R; z : R }.

(** [new THREE.Vector3()], also the default [position] of every object. *)
Definition zero : Vector3 := mkVector3 0 0 0.

Definition add (a b : Vector3) : Vector3 :=
  mkVector3 (x a + x b) (y a + y b) (z a + z b).

(** [Vector3.length]. *)
Definition length (v : Vector3) : R :=
  sqrt (x v * x v + y v * y v + z v * z v).

(** The rotation [Matrix4.makeRotationY(theta)] applied to a point. *)
Definition rotateY (theta : R) (v : Vector3) : Vector3 :=
  mkVector3 (cos theta * x v + sin theta * z v)
            (y v)
            (- sin theta * x v + cos theta * z v).

(** An [Object3D] (or [Mesh]) with unit scale whose rotation is only ever
    changed about the Y axis, as in all three variants. *)
Record Object3D := mkObject3D { obj_position : Vector3; rotation_y : R }.

(** The local matrix of an object maps a point of its own frame into the
    frame of its parent: rotate, then translate by [position]. *)
Definition localToParent (o : Object3D) (p : Vector3) : Vector3 :=
  add (obj_position o) (rotateY (rotation_y o) p).

(** A [PerspectiveCamera].  [projection] is the tuple (fov, aspect, near,
    far) the projection matrix was last computed from; [lookAtTarget] is
    the point of the last [lookAt] call, if any. *)
Record PerspectiveCamera := mkCamera {
  fov : R; aspect : R; near : R; far : R;
  position : Vector3;
  lookAtTarget : option Vector3;
  projection : R * R * R * R }.

(** [new THREE.PerspectiveCamera(fov, aspect, near, far)]. *)
Definition newPerspectiveCamera (f a n fr : R) : PerspectiveCamera :=
  mkCamera f a n fr zero None (f, a, n, fr).

Definition set_aspect (a : R) (c : PerspectiveCamera) : PerspectiveCamera :=
  mkCamera (fov c) a (near c) (far c) (position c) (lookAtTarget c)
           (projection c).

Definition set_position (p : Vector3) (c : PerspectiveCamera)
  : PerspectiveCamera :=
  mkCamera (fov c) (aspect c) (near c) (far c) p (lookAtTarget c)
           (projection c).

Definition lookAt (t : Vector3) (c : PerspectiveCamera)
  : PerspectiveCamera :=
  mkCamera (fov c) (aspect c) (near c) (far c) (position c) (Some t)
           (projection c).

Definition updateProjectionMatrix (c : PerspectiveCamera)
  : PerspectiveCamera :=
  mkCamera (fov c) (aspect c) (near c) (far c) (position c)
           (lookAtTarget c) (fov c, aspect c, near c, far c).

(** [Vector3.distanceTo]. *)
Definition distanceTo (a b : Vector3) : R :=
  sqrt ((x a - x b) * (x a - x b) + (y a - y b) * (y a - y b)
        + (z a - z b) * (z a - z b)).

(** A [WebGLRenderer]: only its output size is observed. *)
Record WebGLRenderer := mkRenderer { width : R; height : R }.

Definition setSize (w h : R) (_ : WebGLRenderer) : WebGLRenderer :=
  mkRenderer w h.

End THREE.

(** ** The joystick events of nipplejs *)
Module nipplejs.

(** The [data] argument of a ['move'] event: [data.angle.radian],
    [data.distance] and [data.vector]. *)
Record EventData := mkEventData {
  angle_radian : R;
  distance : R;
  vector_x : R;
  vector_y : R }.

End nipplejs.

(** What the browser delivers to a page: joystick events, resize events
    (carrying the new [window.innerWidth] and [window.innerHeight]) and
    animation frames. *)
Inductive Event :=
| JoystickMove (data : nipplejs.EventData)
| JoystickEnd
| Resize (innerWidth innerHeight : R)
| AnimationFrame.

(** The polar bound [Math.PI / 2 - 0.1] of both joystick variants
    ([maxPitch] in script.js, [maxTheta] in app.js). *)
Definition maxPolar : R := PI / 2 - 0.1.

(** ** script.js *)
Module ScriptJs.

Record PlanetData := mkPlanetData {
  radius : R; size : R; color : Z; speed : R }.

Definition planetsData : list PlanetData :=
  [ mkPlanetData 4 0.3 0x888888 0.02;    (* Mercury *)
    mkPlanetData 6 0.5 0xffa500 0.015;   (* Venus *)
    mkPlanetData 8 0.5 0x0000ff 0.01;    (* Earth *)
    mkPlanetData 10 0.4 0xff0000 0.008;  (* Mars *)
    mkPlanetData 13 1.2 0xffe4b5 0.006;  (* Jupiter *)
    mkPlanetData 16 1.0 0xf5deb3 0.005;  (* Saturn *)
    mkPlanetData 18 0.7 0xadd8e6 0.004;  (* Uranus *)
    mkPlanetData 20 0.6 0x4169e1 0.003   (* Neptune *) ].

(** An entry of [planetPivots]: the pivot, the mesh added to it, and the
    orbit speed. *)
Record PivotEntry := mkPivotEntry {
  pivot : THREE.Object3D;
  mesh : THREE.Object3D;
  pivot_speed : R }.

Definition planetPivots0 : list PivotEntry :=
  map (fun data =>
         mkPivotEntry (THREE.mkObject3D THREE.zero 0)
                      (THREE.mkObject3D (THREE.mkVector3 (radius data) 0 0) 0)
                      (speed data))
      planetsData.

Definition camRadius : R := 30.

Record State := mkState {
  camera : THREE.PerspectiveCamera;
  renderer : THREE.WebGLRenderer;
  planetPivots : list PivotEntry;
  yaw : R;
  pitch : R;
  moveX : R;
  moveY : R }.

(** The state once the script has run up to (not including) the first
    call of [animate], in a window of the given size. *)
Definition init (innerWidth innerHeight : R) : State :=
  mkState
    (THREE.lookAt THREE.zero
       (THREE.set_position (THREE.mkVector3 0 5 camRadius)
          (THREE.newPerspectiveCamera 60 (innerWidth / innerHeight) 0.1 1000)))
    (THREE.mkRenderer innerWidth innerHeight)
    planetPivots0 0 0 0 0.

(** The ['resize'] listener. *)
Definition onResize (innerWidth innerHeight : R) (s : State) : State :=
  mkState
    (THREE.updateProjectionMatrix
       (THREE.set_aspect (innerWidth / innerHeight) (camera s)))
    (THREE.setSize innerWidth innerHeight (renderer s))
    (planetPivots s) (yaw s) (pitch s) (moveX s) (moveY s).

(** The ['move'] listener of the joystick. *)
Definition onMove (data : nipplejs.EventData) (s : State) : State :=
  let rad := nipplejs.angle_radian data in
  let distance := Rmin (nipplejs.distance data / 50) 1 in
  mkState (camera s) (renderer s) (planetPivots s) (yaw s) (pitch s)
          (cos rad * distance) (sin rad * distance).

(** The ['end'] listener of the joystick. *)
Definition onEnd (s : State) : State :=
  mkState (camera s) (renderer s) (planetPivots s) (yaw s) (pitch s) 0 0.

Definition rotatePivot (obj : PivotEntry) : PivotEntry :=
  mkPivotEntry
    (THREE.mkObject3D (THREE.obj_position (pivot obj))
                      (THREE.rotation_y (pivot obj) + pivot_speed obj))
    (mesh obj) (pivot_speed obj).

(** One call of [animate]. *)
Definition animate (s : State) : State :=
  let pivots := map rotatePivot (planetPivots s) in
  let yaw1 := yaw s - moveX s * 0.05 in
  let pitch1 := pitch s + moveY s * 0.05 in
  let maxPitch := PI / 2 - 0.1 in
  let pitch2 := Rmax (- maxPitch) (Rmin maxPitch pitch1) in
  let pos :=
    THREE.mkVector3 (camRadius * cos pitch2 * sin yaw1)
                    (camRadius * sin pitch2)
                    (camRadius * cos pitch2 * cos yaw1) in
  mkState (THREE.lookAt THREE.zero (THREE.set_position pos (camera s)))
          (renderer s) pivots yaw1 pitch2 (moveX s) (moveY s).

Definition handle (s : State) (e : Event) : State :=
  match e with
  | JoystickMove data => onMove data s
  | JoystickEnd => onEnd s
  | Resize w h => onResize w h s
  | AnimationFrame => animate s
  end.

Definition run (es : list Event) (s : State) : State :=
  fold_left handle es s.

(** World position of a planet mesh: the mesh sits in the frame of its
    pivot, the pivot in the scene. *)
Definition worldPosition (obj : PivotEntry) : THREE.Vector3 :=
  THREE.localToParent (pivot obj) (THREE.obj_position (mesh obj)).

End ScriptJs.

(** ** app.js *)
Module AppJs.

Record OrbitDatum := mkOrbitDatum {
  radius : R; size : R; speed : R; color : Z }.

Definition orbitData : list OrbitDatum :=
  [ mkOrbitDatum 5 0.4 0.02 0xa8a9ad;    (* Mercury *)
    mkOrbitDatum 7 0.6 0.015 0xe0c16f;   (* Venus *)
    mkOrbitDatum 9 0.6 0.013 0x2d7dd2;   (* Earth *)
    mkOrbitDatum 11 0.4 0.011 0xff8040;  (* Mars *)
    mkOrbitDatum 15 1.0 0.008 0xe5c07b;  (* Jupiter *)
    mkOrbitDatum 19 0.9 0.006 0xd7af70;  (* Saturn *)
    mkOrbitDatum 23 0.8 0.004 0x7fb4ff;  (* Uranus *)
    mkOrbitDatum 27 0.7 0.003 0x5875e1   (* Neptune *) ].

(** [mesh.userData]. *)
Record UserData := mkUserData {
  orbitRadius : R; angle : R; ud_speed : R }.

(** A planet mesh: its [userData] and its [position]. *)
Record Planet := mkPlanet {
  userData : UserData;
  planet_position : THREE.Vector3 }.

(** [createPlanet(data)]; [random] is the value [Math.random()] returns
    in this call. *)
Definition createPlanet (data : OrbitDatum) (random : R) : Planet :=
  mkPlanet (mkUserData (radius data) (random * PI * 2) (speed data))
           THREE.zero.

Record JoystickVector := mkJoystickVector { jx : R; jy : R }.

Definition cameraDistance : R := 40.

Record State := mkState {
  camera : THREE.PerspectiveCamera;
  renderer : THREE.WebGLRenderer;
  planets : list Planet;
  joystickVector : JoystickVector;
  phi : R;
  theta : R }.

(** The state before the first call of [animate]; [random i] is the value
    of the [i]-th call of [Math.random]. *)
Definition init (innerWidth innerHeight : R) (random : nat -> R) : State :=
  mkState
    (THREE.newPerspectiveCamera 60 (innerWidth / innerHeight) 0.1 1000)
    (THREE.mkRenderer innerWidth innerHeight)
    (map (fun p => createPlanet (fst p) (random (snd p)))
         (combine orbitData (seq 0 (List.length orbitData))))
    (mkJoystickVector 0 0) 0 0.

Definition onMove (data : nipplejs.EventData) (s : State) : State :=
  mkState (camera s) (renderer s) (planets s)
          (mkJoystickVector (nipplejs.vector_x data) (nipplejs.vector_y data))
          (phi s) (theta s).

Definition onEnd (s : State) : State :=
  mkState (camera s) (renderer s) (planets s) (mkJoystickVector 0 0)
          (phi s) (theta s).

Definition onResize (innerWidth innerHeight : R) (s : State) : State :=
  mkState
    (THREE.updateProjectionMatrix
       (THREE.set_aspect (innerWidth / innerHeight) (camera s)))
    (THREE.setSize innerWidth innerHeight (renderer s))
    (planets s) (joystickVector s) (phi s) (theta s).

(** The body of the [forEach] of [updatePlanets]. *)
Definition updatePlanet (planet : Planet) : Planet :=
  let ud := userData planet in
  let angle1 := angle ud + ud_speed ud in
  mkPlanet (mkUserData (orbitRadius ud) angle1 (ud_speed ud))
           (THREE.mkVector3 (orbitRadius ud * cos angle1)
                            0
                            (orbitRadius ud * sin angle1)).

Definition updatePlanets (s : State) : State :=
  mkState (camera s) (renderer s) (map updatePlanet (planets s))
          (joystickVector s) (phi s) (theta s).

Definition updateCamera (s : State) : State :=
  let phi1 := phi s - jx (joystickVector s) * 0.05 in
  let theta1 := theta s - jy (joystickVector s) * 0.05 in
  let maxTheta := PI / 2 - 0.1 in
  let minTheta := - maxTheta in
  let theta2 := Rmax minTheta (Rmin maxTheta theta1) in
  let x := cameraDistance * cos theta2 * sin phi1 in
  let y := cameraDistance * sin theta2 in
  let z := cameraDistance * cos theta2 * cos phi1 in
  mkState
    (THREE.lookAt THREE.zero
       (THREE.set_position (THREE.mkVector3 x y z) (camera s)))
    (renderer s) (planets s) (joystickVector s) phi1 theta2.

Definition animate (s : State) : State := updateCamera (updatePlanets s).

Definition handle (s : State) (e : Event) : State :=
  match e with
  | JoystickMove data => onMove data s
  | JoystickEnd => onEnd s
  | Resize w h => onResize w h s
  | AnimationFrame => animate s
  end.

Definition run (es : list Event) (s : State) : State :=
  fold_left handle es s.

End AppJs.

(** ** main.js *)
Module MainJs.

(** An entry of [PLANETS], or of the [satellites] of one. *)
#[warnings="-register-all"]
Inductive BodyConfig :=
| Body (name : string) (radius distance : R) (color : Z)
       (orbitSpeed rotationSpeed : R)
       (satellites : option (list BodyConfig)).

Definition radius (c : BodyConfig) : R :=
  match c with Body _ r _ _ _ _ _ => r end.
Definition distance (c : BodyConfig) : R :=
  match c with Body _ _ d _ _ _ _ => d end.
Definition orbitSpeed (c : BodyConfig) : R :=
  match c with Body _ _ _ _ s _ _ => s end.
Definition rotationSpeed (c : BodyConfig) : R :=
  match c with Body _ _ _ _ _ s _ => s end.
Definition satellites (c : BodyConfig) : option (list BodyConfig) :=
  match c with Body _ _ _ _ _ _ l => l end.

Definition Moon : BodyConfig :=
  Body "Moon" 0.27 2.2 0xdddddd 0.04 0.01 None.

Definition Earth : BodyConfig :=
  Body "Earth" 1 12 0x2f78ff 0.012 0.02 (Some [Moon]).

Definition PLANETS : list BodyConfig :=
  [ Body "Mercury" 0.383 6 0xb2b2b2 0.02 0.004 None;
    Body "Venus" 0.95 9 0xeed4a0 0.015 0.0025 None;
    Earth;
    Body "Mars" 0.53 16 0xff5c33 0.01 0.018 None;
    Body "Jupiter" (11.2 * 0.3) 24 0xf5d6a3 0.005 0.025 None;
    Body "Saturn" (9.45 * 0.3) 32 0xf8d8a0 0.004 0.022 None;
    Body "Uranus" (4.0 * 0.3) 38 0x66ccff 0.0035 0.018 None;
    Body "Neptune" (3.9 * 0.3) 45 0x3366ff 0.003 0.016 None ].

(** The starfield of [buildSolarSystem].  [star u1 u2 u3] is the body of
    the loop, [u1], [u2], [u3] being the values of its three calls of
    [Math.random], in order.  The [Float32Array] the coordinates are stored
    in is idealised like all numbers. *)
Definition starCount : N := 10000.

Definition star (u1 u2 u3 : R) : THREE.Vector3 :=
  let r := 150 + u1 * 150 in
  let theta := u2 * PI * 2 in
  let phi := acos (2 * u3 - 1) in
  let x := r * sin phi * cos theta in
  let y := r * sin phi * sin theta in
  let z := r * cos phi in
  THREE.mkVector3 x y z.

(** The stars of the first [count] iterations; [random k] is the value of
    the [k]-th call of [Math.random] of the loop. *)
Definition stars (random : nat -> R) (count : nat) : list THREE.Vector3 :=
  map (fun i => star (random (3 * i)%nat) (random (3 * i + 1)%nat)
                     (random (3 * i + 2)%nat))
      (seq 0 count).

(** The array [starPositions] after [count] iterations: entries [3 i],
    [3 i + 1], [3 i + 2] are the coordinates of star [i]. *)
Definition starPositions (random : nat -> R) (count : nat) : list R :=
  flat_map (fun v => [THREE.x v; THREE.y v; THREE.z v]) (stars random count).

(** An entry of [orbitObjects]. *)
Record OrbitObject := mkOrbitObject {
  pivot : THREE.Object3D;
  mesh : THREE.Object3D;
  obj_orbitSpeed : R;
  obj_rotationSpeed : R }.

(** The pivot and the mesh built for one configuration entry: the pivot at
    the origin of its parent, the mesh moved out along the x axis. *)
Definition makeOrbitObject (config : BodyConfig) : OrbitObject :=
  mkOrbitObject (THREE.mkObject3D THREE.zero 0)
                (THREE.mkObject3D (THREE.mkVector3 (distance config) 0 0) 0)
                (orbitSpeed config) (rotationSpeed config).

(** The scene graph below [scene] built by the [PLANETS.forEach] of
    [buildSolarSystem]: a planet pivot (child of the scene) holding the
    planet mesh, and for each satellite a pivot that is a child of the
    planet mesh and holds the satellite mesh.  The [satellites] of a
    satellite are not read by the code. *)
Record PlanetNode := mkPlanetNode {
  planetObject : OrbitObject;
  satelliteObjects : list OrbitObject }.

Definition buildNode (planetConfig : BodyConfig) : PlanetNode :=
  mkPlanetNode
    (makeOrbitObject planetConfig)
    (match satellites planetConfig with
     | Some sats => map makeOrbitObject sats
     | None => []
     end).

(** The array [orbitObjects], in the order of the pushes; its entries
    alias the objects of the scene graph. *)
Definition orbitObjects (nodes : list PlanetNode) : list OrbitObject :=
  flat_map (fun n => planetObject n :: satelliteObjects n) nodes.

(** The body of the [forEach] of [render]. *)
Definition advance (deltaSeconds : R) (obj : OrbitObject) : OrbitObject :=
  mkOrbitObject
    (THREE.mkObject3D
       (THREE.obj_position (pivot obj))
       (THREE.rotation_y (pivot obj) + obj_orbitSpeed obj * deltaSeconds * 60))
    (THREE.mkObject3D
       (THREE.obj_position (mesh obj))
       (THREE.rotation_y (mesh obj) + obj_rotationSpeed obj * deltaSeconds * 60))
    (obj_orbitSpeed obj) (obj_rotationSpeed obj).

Definition advanceNode (deltaSeconds : R) (n : PlanetNode) : PlanetNode :=
  mkPlanetNode (advance deltaSeconds (planetObject n))
               (map (advance deltaSeconds) (satelliteObjects n)).

(** World position of a planet mesh and of a satellite mesh of that
    planet, by composing the local matrices from the mesh up to the
    scene. *)
Definition planetWorldPosition (p : OrbitObject) : THREE.Vector3 :=
  THREE.localToParent (pivot p) (THREE.obj_position (mesh p)).

Definition satelliteWorldPosition (p sat : OrbitObject) : THREE.Vector3 :=
  THREE.localToParent (pivot p)
    (THREE.localToParent (mesh p)
       (THREE.localToParent (pivot sat) (THREE.obj_position (mesh sat)))).

Section WithControls.

(** OrbitControls.js is not part of the sources: the state of the
    controls and the effect of [controls.update()] on the controls and
    the camera are left abstract. *)
Variable Controls : Type.
Variable controls_update :
  Controls -> THREE.PerspectiveCamera -> Controls * THREE.PerspectiveCamera.

Record State := mkState {
  camera : THREE.PerspectiveCamera;
  renderer : THREE.WebGLRenderer;
  controls : Controls;
  nodes : list PlanetNode;
  previousTime : R }.

(** [buildSolarSystem] followed by the start of [animateSystem] (which
    sets [previousTime] to 0); [controls0] is the freshly constructed
    and configured OrbitControls. *)
Definition init (innerWidth innerHeight : R) (controls0 : Controls)
  : State :=
  mkState
    (THREE.set_position (THREE.mkVector3 0 20 80)
       (THREE.newPerspectiveCamera 45 (innerWidth / innerHeight) 0.1 2000))
    (THREE.mkRenderer innerWidth innerHeight)
    controls0
    (map buildNode PLANETS)
    0.

(** One call of [render(time)]. *)
Definition render (time : R) (s : State) : State :=
  let delta := time - previousTime s in
  let deltaSeconds := delta * 0.001 in
  let nodes1 := map (advanceNode deltaSeconds) (nodes s) in
  let cc := controls_update (controls s) (camera s) in
  mkState (snd cc) (renderer s) (fst cc) nodes1 time.

(** The ['resize'] listener of [init]. *)
Definition onResize (innerWidth innerHeight : R) (s : State) : State :=
  mkState
    (THREE.updateProjectionMatrix
       (THREE.set_aspect (innerWidth / innerHeight) (camera s)))
    (THREE.setSize innerWidth innerHeight (renderer s))
    (controls s) (nodes s) (previousTime s).

(** [render] called at each of the given timestamps, in order. *)
Definition renderAll (times : list R) (s : State) : State :=
  fold_left (fun s t => render t s) times s.

End WithControls.

Arguments camera {Controls}.
Arguments renderer {Controls}.
Arguments controls {Controls}.
Arguments nodes {Controls}.
Arguments previousTime {Controls}.

End MainJs.

(** ** Vocabulary of the properties *)

(** A polar angle is within bounds when its absolute value is at most
    [maxPolar]; it then lies strictly between the poles. *)
Definition polarBounded (p : R) : Prop :=
  Rabs p <= maxPolar /\ - (PI / 2) < p < PI / 2.

(** The point at distance [r] from the origin with polar angle [polar] and
    azimuth [azimuth], in the convention of [animate] (script.js) and
    [updateCamera] (app.js). *)
Definition spherical (r polar azimuth : R) : THREE.Vector3 :=
  THREE.mkVector3 (r * cos polar * sin azimuth)
                  (r * sin polar)
                  (r * cos polar * cos azimuth).

(** A state of script.js whose camera agrees with the stored angles: the
    position is the spherical conversion of [yaw] and [pitch], the camera
    looks at the origin and [pitch] is within bounds. *)
Definition scriptSettled (s : ScriptJs.State) : Prop :=
  THREE.position (ScriptJs.camera s)
    = spherical ScriptJs.camRadius (ScriptJs.pitch s) (ScriptJs.yaw s) /\
  THREE.lookAtTarget (ScriptJs.camera s) = Some THREE.zero /\
  polarBounded (ScriptJs.pitch s).

(** The same for app.js. *)
Definition appSettled (s : AppJs.State) : Prop :=
  THREE.position (AppJs.camera s)
    = spherical AppJs.cameraDistance (AppJs.theta s) (AppJs.phi s) /\
  THREE.lookAtTarget (AppJs.camera s) = Some THREE.zero /\
  polarBounded (AppJs.theta s).

(** The ['move'] event of a joystick pushed fully to the right: angle 0,
    distance 50 (the radius of the default joystick), vector (1, 0).  Both
    joystick variants read it as the input vector (1, 0). *)
Definition fullRight : nipplejs.EventData := nipplejs.mkEventData 0 50 1 0.

(** The timestamps of [n] consecutive frames that follow time [t0] at a
    constant spacing of [deltaMs] milliseconds. *)
Fixpoint frameTimes (t0 deltaMs : R) (n : nat) : list R :=
  match n with
  | O => []
  | S n' => (t0 + deltaMs) :: frameTimes (t0 + deltaMs) deltaMs n'
  end.

(** The orbit angle of an entry of [orbitObjects] of main.js is the rotation
    of its pivot. *)
Definition pivotAngle (o : MainJs.OrbitObject) : R :=
  THREE.rotation_y (MainJs.pivot o).

(** The entry [o] with its pivot turned further by [a]. *)
Definition turnPivot (a : R) (o : MainJs.OrbitObject) : MainJs.OrbitObject :=
  MainJs.mkOrbitObject
    (THREE.mkObject3D (THREE.obj_position (MainJs.pivot o))
                      (THREE.rotation_y (MainJs.pivot o) + a))
    (MainJs.mesh o) (MainJs.obj_orbitSpeed o) (MainJs.obj_rotationSpeed o).

(** The entry of [orbitObjects] built from [config] once its pivot has been
    turned to [orbitAngle] and its mesh to [selfAngle]: [makeOrbitObject]
    builds it at angles 0, and [advance] only moves the two angles. *)
Definition posed (config : MainJs.BodyConfig) (orbitAngle selfAngle : R)
  : MainJs.OrbitObject :=
  MainJs.mkOrbitObject
    (THREE.mkObject3D THREE.zero orbitAngle)
    (THREE.mkObject3D (THREE.mkVector3 (MainJs.distance config) 0 0) selfAngle)
    (MainJs.orbitSpeed config) (MainJs.rotationSpeed config).

(** What nipplejs delivers: the distance of a ['move'] event is a length
    and its vector is normalised. *)
Definition wellFormed (e : Event) : Prop :=
  match e with
  | JoystickMove data =>
      0 <= nipplejs.distance data /\
      -1 <= nipplejs.vector_x data <= 1 /\
      -1 <= nipplejs.vector_y data <= 1
  | _ => True
  end.

Definition isMove (e : Event) : bool :=
  match e with
  | JoystickMove _ => true
  | _ => false
  end.

(** The stored input vector of each joystick variant lies in the square
    [[-1, 1] x [-1, 1]]. *)
Definition scriptInputInRange (s : ScriptJs.State) : Prop :=
  -1 <= ScriptJs.moveX s <= 1 /\ -1 <= ScriptJs.moveY s <= 1.

Definition appInputInRange (s : AppJs.State) : Prop :=
  -1 <= AppJs.jx (AppJs.joystickVector s) <= 1 /\
  -1 <= AppJs.jy (AppJs.joystickVector s) <= 1.

(** The part of a camera a resize must not touch. *)
Definition cameraPose (c : THREE.PerspectiveCamera)
  : THREE.Vector3 * option THREE.Vector3 * (R * R * R) :=
  (THREE.position c, THREE.lookAtTarget c,
   (THREE.fov c, THREE.near c, THREE.far c)).

(** The scene state of each variant: bodies, camera pose and angles, input
    vector (and, in main.js, the controls and the clock of [render]). *)
Definition scriptScene (s : ScriptJs.State) :=
  (ScriptJs.planetPivots s, cameraPose (ScriptJs.camera s),
   (ScriptJs.yaw s, ScriptJs.pitch s), (ScriptJs.moveX s, ScriptJs.moveY s)).

Definition appScene (s : AppJs.State) :=
  (AppJs.planets s, cameraPose (AppJs.camera s),
   (AppJs.phi s, AppJs.theta s), AppJs.joystickVector s).

Definition mainScene {Controls : Type} (s : MainJs.State Controls) :=
  (MainJs.nodes s, cameraPose (MainJs.camera s), MainJs.controls s,
   MainJs.previousTime s).

(** The number of animation frames among the events. *)
Fixpoint frameCount (es : list Event) : nat :=
  match es with
  | [] => O
  | AnimationFrame :: es' => S (frameCount es')
  | _ :: es' => frameCount es'
  end.

(** The orbit angles of the planets of each joystick variant, in the order
    of the configuration table. *)
Definition scriptAngles (s : ScriptJs.State) : list R :=
  map (fun obj => THREE.rotation_y (ScriptJs.pivot obj))
      (ScriptJs.planetPivots s).

Definition appAngles (s : AppJs.State) : list R :=
  map (fun p => AppJs.angle (AppJs.userData p)) (AppJs.planets s).

(** ** Vocabulary of the further properties *)

(** The self-rotation angle of an entry of [orbitObjects] of main.js. *)
Definition meshAngle (o : MainJs.OrbitObject) : R :=
  THREE.rotation_y (MainJs.mesh o).

Definition isResize (e : Event) : bool :=
  match e with
  | Resize _ _ => true
  | _ => false
  end.

(** A ['move'] event whose vector is the Cartesian form of its angle and
    (clamped) distance, so that script.js and app.js read the same input
    vector from it. *)
Definition consistent (e : Event) : Prop :=
  match e with
  | JoystickMove data =>
      nipplejs.vector_x data
      = cos (nipplejs.angle_radian data)
        * Rmin (nipplejs.distance data / 50) 1 /\
      nipplejs.vector_y data
      = sin (nipplejs.angle_radian data)
        * Rmin (nipplejs.distance data / 50) 1
  | _ => True
  end.

(** World position of a planet mesh of script.js (see
    [ScriptJs.worldPosition]) for every entry of [planetPivots]. *)
Definition scriptPositions (s : ScriptJs.State) : list THREE.Vector3 :=
  map ScriptJs.worldPosition (ScriptJs.planetPivots s).

(** The configuration entries [buildSolarSystem] builds an orbit object
    for, in the order of the pushes onto [orbitObjects]: every planet,
    directly followed by its satellites. *)
Definition configuredBodies (configs : list MainJs.BodyConfig)
  : list MainJs.BodyConfig :=
  flat_map (fun c => c :: match MainJs.satellites c with
                          | Some sats => sats
                          | None => []
                          end)
           configs.

Definition isJoystick (e : Event) : bool :=
  match e with
  | JoystickMove _ | JoystickEnd => true
  | _ => false
  end.

(** The window a page was last told about: the one of the last resize
    event, or else the given one. *)
Fixpoint lastSize (es : list Event) (w h : R) : R * R :=
  match es with
  | [] => (w, h)
  | Resize w' h' :: es' => lastSize es' w' h'
  | _ :: es' => lastSize es' w h
  end.

(** * Properties *)

(** ** The polar clamp *)

Lemma maxPolar_pos : 0 < maxPolar.
Proof. unfold maxPolar. pose proof PI2_3_2. lra. Qed.

Lemma maxPolar_lt_PI2 : maxPolar < PI / 2.
Proof. unfold maxPolar. lra. Qed.

(** The value [Math.max(-m, Math.min(m, v))] lies in [[-m, m]] as soon as
    [m] is not negative. *)
Lemma clamp_range (m v : R) :
  0 <= m -> - m <= Rmax (- m) (Rmin m v) <= m.
Proof.
  intros Hm. split.
  - apply Rmax_l.
  - apply Rmax_lub; [lra | apply Rmin_l].
Qed.

(** The clamp leaves a value of the range alone. *)
Lemma clamp_id (m v : R) :
  - m <= v <= m -> Rmax (- m) (Rmin m v) = v.
Proof.
  intros [Hlo Hhi].
  rewrite (Rmin_right m v) by exact Hhi.
  apply Rmax_right. exact Hlo.
Qed.

Lemma polarBounded_of_range (p : R) :
  - maxPolar <= p <= maxPolar -> polarBounded p.
Proof.
  intros H. split.
  - apply Rabs_le. exact H.
  - pose proof maxPolar_lt_PI2. lra.
Qed.

Lemma polarBounded_range (p : R) :
  polarBounded p -> - maxPolar <= p <= maxPolar.
Proof.
  intros [H _]. unfold Rabs in H. destruct (Rcase_abs p); lra.
Qed.

Lemma polarBounded_clamp (v : R) :
  polarBounded (Rmax (- (PI / 2 - 0.1)) (Rmin (PI / 2 - 0.1) v)).
Proof.
  apply polarBounded_of_range.
  apply (clamp_range maxPolar v).
  left. apply maxPolar_pos.
Qed.

Lemma polarBounded_0 : polarBounded 0.
Proof.
  apply polarBounded_of_range. pose proof maxPolar_pos. lra.
Qed.

Module ScriptJsFacts.
Import ScriptJs.

Lemma animate_pitch_bounded (s : State) : polarBounded (pitch (animate s)).
Proof. unfold animate. cbn [pitch]. apply polarBounded_clamp. Qed.

Lemma handle_pitch_bounded (s : State) (e : Event) :
  polarBounded (pitch s) -> polarBounded (pitch (handle s e)).
Proof.
  intros H. destruct e; try exact H. apply animate_pitch_bounded.
Qed.

Lemma run_pitch_bounded (es : list Event) (s : State) :
  polarBounded (pitch s) -> polarBounded (pitch (run es s)).
Proof.
  revert s. induction es as [|e es IH]; intros s H; cbn.
  - exact H.
  - apply IH. apply handle_pitch_bounded. exact H.
Qed.

Lemma script_run_app (es1 es2 : list Event) (s : State) :
  run (es1 ++ es2) s = run es2 (run es1 s).
Proof. apply fold_left_app. Qed.

Lemma run_frame_pitch_bounded (es : list Event) (s : State) :
  polarBounded (pitch (run (es ++ [AnimationFrame]) s)).
Proof. rewrite script_run_app. cbn. apply animate_pitch_bounded. Qed.

End ScriptJsFacts.

Module AppJsFacts.
Import AppJs.

Lemma updateCamera_theta_bounded (s : State) :
  polarBounded (theta (updateCamera s)).
Proof. unfold updateCamera. cbn [theta]. apply polarBounded_clamp. Qed.

Lemma animate_theta_bounded (s : State) : polarBounded (theta (animate s)).
Proof. apply updateCamera_theta_bounded. Qed.

Lemma handle_theta_bounded (s : State) (e : Event) :
  polarBounded (theta s) -> polarBounded (theta (handle s e)).
Proof.
  intros H. destruct e; try exact H. apply animate_theta_bounded.
Qed.

Lemma run_theta_bounded (es : list Event) (s : State) :
  polarBounded (theta s) -> polarBounded (theta (run es s)).
Proof.
  revert s. induction es as [|e es IH]; intros s H; cbn.
  - exact H.
  - apply IH. apply handle_theta_bounded. exact H.
Qed.

Lemma app_run_app (es1 es2 : list Event) (s : State) :
  run (es1 ++ es2) s = run es2 (run es1 s).
Proof. apply fold_left_app. Qed.

Lemma run_frame_theta_bounded (es : list Event) (s : State) :
  polarBounded (theta (run (es ++ [AnimationFrame]) s)).
Proof. rewrite app_run_app. cbn. apply animate_theta_bounded. Qed.

End AppJsFacts.

(** C1.  In both joystick variants the polar angle ([pitch] in script.js,
    [theta] in app.js) satisfies [|angle| <= PI/2 - 0.1], hence lies
    strictly inside [(-PI/2, PI/2)]:
    - after every frame, from any state and after any sequence of events
      (whatever the joystick data and the stored input vector);
    - in every state reachable from the initial one;
    - in particular after a joystick push followed by [S n] consecutive
      frames, for every [n] ([n = 9999]: 10,000 frames). *)
Theorem C1_polar_angle_bounded :
  (forall es s,
     polarBounded (ScriptJs.pitch (ScriptJs.run (es ++ [AnimationFrame]) s))) /\
  (forall es s,
     polarBounded (AppJs.theta (AppJs.run (es ++ [AnimationFrame]) s))) /\
  (forall w h es,
     polarBounded (ScriptJs.pitch (ScriptJs.run es (ScriptJs.init w h)))) /\
  (forall w h random es,
     polarBounded (AppJs.theta (AppJs.run es (AppJs.init w h random)))) /\
  (forall data n s,
     polarBounded
       (ScriptJs.pitch
          (ScriptJs.run (JoystickMove data :: repeat AnimationFrame (S n)) s))) /\
  (forall data n s,
     polarBounded
       (AppJs.theta
          (AppJs.run (JoystickMove data :: repeat AnimationFrame (S n)) s))).
Proof.
  split; [| split; [| split; [| split; [| split]]]].
  - intros es s. apply ScriptJsFacts.run_frame_pitch_bounded.
  - intros es s. apply AppJsFacts.run_frame_theta_bounded.
  - intros w h es. apply ScriptJsFacts.run_pitch_bounded, polarBounded_0.
  - intros w h random es. apply AppJsFacts.run_theta_bounded, polarBounded_0.
  - intros data n s.
    pose proof (ScriptJsFacts.run_frame_pitch_bounded
                  (JoystickMove data :: repeat AnimationFrame n) s) as H.
    rewrite <- app_comm_cons, <- repeat_cons in H. exact H.
  - intros data n s.
    pose proof (AppJsFacts.run_frame_theta_bounded
                  (JoystickMove data :: repeat AnimationFrame n) s) as H.
    rewrite <- app_comm_cons, <- repeat_cons in H. exact H.
Qed.

(** ** The camera on its sphere *)

Lemma spherical_length (r polar azimuth : R) :
  0 <= r -> THREE.length (spherical r polar azimuth) = r.
Proof.
  intros Hr. unfold THREE.length, spherical. cbn.
  apply sqrt_lem_1; [ | exact Hr | ].
  - nra.
  - pose proof (sin2_cos2 polar) as Hp.
    pose proof (sin2_cos2 azimuth) as Ha.
    unfold Rsqr in Hp, Ha.
    replace (r * cos polar * sin azimuth * (r * cos polar * sin azimuth) +
             r * sin polar * (r * sin polar) +
             r * cos polar * cos azimuth * (r * cos polar * cos azimuth))
      with (r * r * (cos polar * cos polar *
                       (sin azimuth * sin azimuth + cos azimuth * cos azimuth)
                     + sin polar * sin polar)) by ring.
    rewrite Ha. replace (cos polar * cos polar * 1 + sin polar * sin polar)
      with (sin polar * sin polar + cos polar * cos polar) by ring.
    rewrite Hp. ring.
Qed.

Lemma script_animate_settled (s : ScriptJs.State) :
  scriptSettled (ScriptJs.animate s).
Proof.
  split; [reflexivity | split; [reflexivity |]].
  apply ScriptJsFacts.animate_pitch_bounded.
Qed.

Lemma script_handle_settled (s : ScriptJs.State) (e : Event) :
  scriptSettled s -> scriptSettled (ScriptJs.handle s e).
Proof.
  intros H. destruct e; try exact H. apply script_animate_settled.
Qed.

Lemma script_run_settled (es : list Event) (s : ScriptJs.State) :
  scriptSettled s -> scriptSettled (ScriptJs.run es s).
Proof.
  revert s. induction es as [|e es IH]; intros s H; cbn.
  - exact H.
  - apply IH, script_handle_settled, H.
Qed.

Lemma script_settled_after_frame (es1 es2 : list Event) (s : ScriptJs.State) :
  scriptSettled (ScriptJs.run (es1 ++ AnimationFrame :: es2) s).
Proof.
  rewrite ScriptJsFacts.script_run_app. cbn.
  apply script_run_settled, script_animate_settled.
Qed.

Lemma app_updateCamera_settled (s : AppJs.State) :
  appSettled (AppJs.updateCamera s).
Proof.
  split; [reflexivity | split; [reflexivity |]].
  apply AppJsFacts.updateCamera_theta_bounded.
Qed.

Lemma app_handle_settled (s : AppJs.State) (e : Event) :
  appSettled s -> appSettled (AppJs.handle s e).
Proof.
  intros H. destruct e; try exact H. apply app_updateCamera_settled.
Qed.

Lemma app_run_settled (es : list Event) (s : AppJs.State) :
  appSettled s -> appSettled (AppJs.run es s).
Proof.
  revert s. induction es as [|e es IH]; intros s H; cbn.
  - exact H.
  - apply IH, app_handle_settled, H.
Qed.

Lemma app_settled_after_frame (es1 es2 : list Event) (s : AppJs.State) :
  appSettled (AppJs.run (es1 ++ AnimationFrame :: es2) s).
Proof.
  rewrite AppJsFacts.app_run_app. cbn.
  apply app_run_settled, app_updateCamera_settled.
Qed.

(** With a zero input vector a settled camera is left as it is. *)
Lemma script_animate_zero_input (s : ScriptJs.State) :
  scriptSettled s ->
  ScriptJs.moveX s = 0 -> ScriptJs.moveY s = 0 ->
  ScriptJs.camera (ScriptJs.animate s) = ScriptJs.camera s /\
  ScriptJs.yaw (ScriptJs.animate s) = ScriptJs.yaw s /\
  ScriptJs.pitch (ScriptJs.animate s) = ScriptJs.pitch s.
Proof.
  intros (Hpos & Hlook & Hb) Hx Hy.
  apply polarBounded_range in Hb. unfold maxPolar in Hb.
  assert (Hyaw : ScriptJs.yaw (ScriptJs.animate s) = ScriptJs.yaw s).
  { unfold ScriptJs.animate. cbn. rewrite Hx. ring. }
  assert (Hpitch : ScriptJs.pitch (ScriptJs.animate s) = ScriptJs.pitch s).
  { unfold ScriptJs.animate. cbn. rewrite Hy.
    replace (ScriptJs.pitch s + 0 * 0.05) with (ScriptJs.pitch s) by ring.
    apply clamp_id. exact Hb. }
  split; [| split; assumption].
  pose proof (script_animate_settled s) as (Hpos' & _ & _).
  rewrite Hyaw, Hpitch, <- Hpos in Hpos'.
  revert Hpos'. unfold ScriptJs.animate. cbn.
  destruct (ScriptJs.camera s) as [f a n fr p l pr]. cbn in *.
  intros ->. rewrite Hlook. reflexivity.
Qed.

Lemma app_updateCamera_zero_input (s : AppJs.State) :
  appSettled s ->
  AppJs.jx (AppJs.joystickVector s) = 0 ->
  AppJs.jy (AppJs.joystickVector s) = 0 ->
  AppJs.camera (AppJs.updateCamera s) = AppJs.camera s /\
  AppJs.phi (AppJs.updateCamera s) = AppJs.phi s /\
  AppJs.theta (AppJs.updateCamera s) = AppJs.theta s.
Proof.
  intros (Hpos & Hlook & Hb) Hx Hy.
  apply polarBounded_range in Hb. unfold maxPolar in Hb.
  assert (Hphi : AppJs.phi (AppJs.updateCamera s) = AppJs.phi s).
  { unfold AppJs.updateCamera. cbn. rewrite Hx. ring. }
  assert (Htheta : AppJs.theta (AppJs.updateCamera s) = AppJs.theta s).
  { unfold AppJs.updateCamera. cbn. rewrite Hy.
    replace (AppJs.theta s - 0 * 0.05) with (AppJs.theta s) by ring.
    apply clamp_id. exact Hb. }
  split; [| split; assumption].
  pose proof (app_updateCamera_settled s) as (Hpos' & _ & _).
  rewrite Hphi, Htheta, <- Hpos in Hpos'.
  revert Hpos'. unfold AppJs.updateCamera. cbn.
  destruct (AppJs.camera s) as [f a n fr p l pr]. cbn in *.
  intros ->. rewrite Hlook. reflexivity.
Qed.

Lemma app_updatePlanets_settled (s : AppJs.State) :
  appSettled s -> appSettled (AppJs.updatePlanets s).
Proof. intros H. exact H. Qed.

(** C2, as stated, fails on the first frame of script.js: the joystick has
    not been touched, the input vector is zero, and the first call of
    [animate] moves the camera from its initial position (0, 5, 30) to
    (0, 0, 30). *)
Lemma C2_first_frame_moves_camera :
  ~ (forall es,
       let s := ScriptJs.run es (ScriptJs.init 800 600) in
       ScriptJs.moveX s = 0 -> ScriptJs.moveY s = 0 ->
       THREE.position (ScriptJs.camera (ScriptJs.animate s))
       = THREE.position (ScriptJs.camera s)).
Proof.
  intros H. specialize (H [] eq_refl eq_refl).
  apply (f_equal THREE.y) in H. cbn in H.
  replace (0 + 0 * 0.05) with 0 in H by ring.
  rewrite clamp_id in H.
  - rewrite sin_0 in H. unfold ScriptJs.camRadius in H. lra.
  - pose proof maxPolar_pos as Hm. unfold maxPolar in Hm. lra.
Qed.

(** C2 (amended).  In both joystick variants, in every state reached after
    at least one frame, a frame whose input vector is zero leaves the camera
    (position, look-at target and projection) and both camera angles
    unchanged. *)
Theorem C2_zero_input_holds_camera :
  (forall es1 es2 s,
     let s1 := ScriptJs.run (es1 ++ AnimationFrame :: es2) s in
     ScriptJs.moveX s1 = 0 -> ScriptJs.moveY s1 = 0 ->
     ScriptJs.camera (ScriptJs.animate s1) = ScriptJs.camera s1 /\
     ScriptJs.yaw (ScriptJs.animate s1) = ScriptJs.yaw s1 /\
     ScriptJs.pitch (ScriptJs.animate s1) = ScriptJs.pitch s1) /\
  (forall es1 es2 s,
     let s1 := AppJs.run (es1 ++ AnimationFrame :: es2) s in
     AppJs.jx (AppJs.joystickVector s1) = 0 ->
     AppJs.jy (AppJs.joystickVector s1) = 0 ->
     AppJs.camera (AppJs.animate s1) = AppJs.camera s1 /\
     AppJs.phi (AppJs.animate s1) = AppJs.phi s1 /\
     AppJs.theta (AppJs.animate s1) = AppJs.theta s1).
Proof.
  split.
  - intros es1 es2 s s1 Hx Hy.
    apply script_animate_zero_input; [| exact Hx | exact Hy].
    apply script_settled_after_frame.
  - intros es1 es2 s s1 Hx Hy.
    apply (app_updateCamera_zero_input (AppJs.updatePlanets s1));
      [| exact Hx | exact Hy].
    apply app_updatePlanets_settled, app_settled_after_frame.
Qed.

Lemma C2_zero_input_holds_camera_witness :
  let s1 := ScriptJs.run ([] ++ AnimationFrame :: [JoystickEnd])
                         (ScriptJs.init 800 600) in
  ScriptJs.moveX s1 = 0 /\ ScriptJs.moveY s1 = 0 /\
  ScriptJs.camera (ScriptJs.animate s1) = ScriptJs.camera s1.
Proof.
  intros s1. split; [reflexivity | split; [reflexivity |]].
  apply (proj1 C2_zero_input_holds_camera [] [JoystickEnd]
               (ScriptJs.init 800 600)); reflexivity.
Defined.

(** C9.  In both joystick variants the per-frame camera update puts the
    camera at distance exactly [camRadius = 30] (script.js), respectively
    [cameraDistance = 40] (app.js), from the origin, from every state and
    whatever the input; the distance is still that one after any further
    events.  The initial camera position (0, 5, 30) of script.js is not at
    distance 30. *)
Theorem C9_camera_on_sphere :
  (ScriptJs.camRadius = 30 /\ AppJs.cameraDistance = 40) /\
  (forall s,
     THREE.length (THREE.position (ScriptJs.camera (ScriptJs.animate s)))
     = ScriptJs.camRadius) /\
  (forall s,
     THREE.length (THREE.position (AppJs.camera (AppJs.updateCamera s)))
     = AppJs.cameraDistance) /\
  (forall es1 es2 s,
     THREE.length
       (THREE.position
          (ScriptJs.camera (ScriptJs.run (es1 ++ AnimationFrame :: es2) s)))
     = ScriptJs.camRadius) /\
  (forall es1 es2 s,
     THREE.length
       (THREE.position
          (AppJs.camera (AppJs.run (es1 ++ AnimationFrame :: es2) s)))
     = AppJs.cameraDistance) /\
  (forall w h,
     THREE.position (ScriptJs.camera (ScriptJs.init w h))
     = THREE.mkVector3 0 5 30 /\
     THREE.length (THREE.position (ScriptJs.camera (ScriptJs.init w h)))
     <> ScriptJs.camRadius).
Proof.
  assert (Hs : 0 <= ScriptJs.camRadius) by (unfold ScriptJs.camRadius; lra).
  assert (Ha : 0 <= AppJs.cameraDistance)
    by (unfold AppJs.cameraDistance; lra).
  split; [split; reflexivity |].
  split; [| split; [| split; [| split]]].
  - intros s. destruct (script_animate_settled s) as (-> & _).
    apply spherical_length, Hs.
  - intros s. destruct (app_updateCamera_settled s) as (-> & _).
    apply spherical_length, Ha.
  - intros es1 es2 s.
    destruct (script_settled_after_frame es1 es2 s) as (-> & _).
    apply spherical_length, Hs.
  - intros es1 es2 s.
    destruct (app_settled_after_frame es1 es2 s) as (-> & _).
    apply spherical_length, Ha.
  - intros w h. split; [reflexivity |].
    unfold THREE.length. cbn. unfold ScriptJs.camRadius. intros H.
    assert (Hpos : 0 <= 0 * 0 + 5 * 5 + 30 * 30) by lra.
    pose proof (sqrt_sqrt _ Hpos) as Hsq.
    rewrite H in Hsq. lra.
Qed.

(** ** One frame of a full push to the right *)

Lemma script_fullRight_input (s : ScriptJs.State) :
  ScriptJs.moveX (ScriptJs.onMove fullRight s) = 1 /\
  ScriptJs.moveY (ScriptJs.onMove fullRight s) = 0.
Proof.
  unfold ScriptJs.onMove, fullRight. cbn.
  replace (50 / 50) with 1 by lra.
  rewrite Rmin_left by lra. rewrite cos_0, sin_0. split; ring.
Qed.

Lemma app_fullRight_input (s : AppJs.State) :
  AppJs.joystickVector (AppJs.onMove fullRight s)
  = AppJs.mkJoystickVector 1 0.
Proof. reflexivity. Qed.

(** C5.  With the input vector (1, 0) delivered by a ['move'] event, one
    frame of either joystick variant, taken in any state reachable from the
    initial one, decreases the azimuth ([yaw], [phi]) by exactly 0.05,
    leaves the polar angle ([pitch], [theta]) unchanged, and sets the camera
    position to the spherical conversion of the new angles, at distance
    [camRadius], respectively [cameraDistance], from the look-at target (the
    origin). *)
Theorem C5_push_right_one_frame :
  (forall w h es,
     let s := ScriptJs.run es (ScriptJs.init w h) in
     let s' := ScriptJs.run [JoystickMove fullRight; AnimationFrame] s in
     ScriptJs.moveX (ScriptJs.onMove fullRight s) = 1 /\
     ScriptJs.moveY (ScriptJs.onMove fullRight s) = 0 /\
     ScriptJs.yaw s' = ScriptJs.yaw s - 0.05 /\
     ScriptJs.pitch s' = ScriptJs.pitch s /\
     THREE.position (ScriptJs.camera s')
     = spherical ScriptJs.camRadius (ScriptJs.pitch s) (ScriptJs.yaw s - 0.05) /\
     THREE.lookAtTarget (ScriptJs.camera s') = Some THREE.zero /\
     THREE.length (THREE.position (ScriptJs.camera s')) = ScriptJs.camRadius) /\
  (forall w h random es,
     let s := AppJs.run es (AppJs.init w h random) in
     let s' := AppJs.run [JoystickMove fullRight; AnimationFrame] s in
     AppJs.joystickVector (AppJs.onMove fullRight s)
     = AppJs.mkJoystickVector 1 0 /\
     AppJs.phi s' = AppJs.phi s - 0.05 /\
     AppJs.theta s' = AppJs.theta s /\
     THREE.position (AppJs.camera s')
     = spherical AppJs.cameraDistance (AppJs.theta s) (AppJs.phi s - 0.05) /\
     THREE.lookAtTarget (AppJs.camera s') = Some THREE.zero /\
     THREE.length (THREE.position (AppJs.camera s')) = AppJs.cameraDistance).
Proof.
  split.
  - intros w h es s s'.
    destruct (script_fullRight_input s) as [Hx Hy].
    assert (Hb : polarBounded (ScriptJs.pitch s))
      by apply ScriptJsFacts.run_pitch_bounded, polarBounded_0.
    apply polarBounded_range in Hb. unfold maxPolar in Hb.
    assert (Hyaw : ScriptJs.yaw s' = ScriptJs.yaw s - 0.05).
    { subst s'. cbn [ScriptJs.run fold_left ScriptJs.handle].
      unfold ScriptJs.animate. cbn [ScriptJs.yaw]. rewrite Hx.
      cbn [ScriptJs.onMove ScriptJs.yaw]. ring. }
    assert (Hpitch : ScriptJs.pitch s' = ScriptJs.pitch s).
    { subst s'. cbn [ScriptJs.run fold_left ScriptJs.handle].
      unfold ScriptJs.animate. cbn [ScriptJs.pitch]. rewrite Hy.
      cbn [ScriptJs.onMove ScriptJs.pitch].
      replace (ScriptJs.pitch s + 0 * 0.05) with (ScriptJs.pitch s) by ring.
      apply clamp_id. exact Hb. }
    destruct (script_settled_after_frame [JoystickMove fullRight] [] s)
      as (Hpos & Hlook & _).
    change (ScriptJs.run ([JoystickMove fullRight] ++ [AnimationFrame]) s)
      with s' in Hpos, Hlook.
    rewrite Hyaw, Hpitch in Hpos.
    repeat (split; [assumption |]).
    rewrite Hpos. apply spherical_length. unfold ScriptJs.camRadius. lra.
  - intros w h random es s s'.
    assert (Hb : polarBounded (AppJs.theta s))
      by apply AppJsFacts.run_theta_bounded, polarBounded_0.
    apply polarBounded_range in Hb. unfold maxPolar in Hb.
    assert (Hphi : AppJs.phi s' = AppJs.phi s - 0.05).
    { subst s'. cbn. ring. }
    assert (Htheta : AppJs.theta s' = AppJs.theta s).
    { subst s'. cbn.
      replace (AppJs.theta s - 0 * 0.05) with (AppJs.theta s) by ring.
      apply clamp_id. exact Hb. }
    destruct (app_settled_after_frame [JoystickMove fullRight] [] s)
      as (Hpos & Hlook & _).
    change (AppJs.run ([JoystickMove fullRight] ++ [AnimationFrame]) s)
      with s' in Hpos, Hlook.
    rewrite Hphi, Htheta in Hpos.
    split; [reflexivity |].
    repeat (split; [assumption |]).
    rewrite Hpos. apply spherical_length. unfold AppJs.cameraDistance. lra.
Qed.

(** ** Orbit angles after a number of frames *)

Lemma cos_period_Z (a : R) (k : Z) : cos (a + 2 * IZR k * PI) = cos a.
Proof.
  destruct (Z_le_gt_dec 0 k) as [Hk | Hk].
  - rewrite <- (Z2Nat.id k Hk), <- INR_IZR_INZ. apply cos_period.
  - rewrite <- (cos_period (a + 2 * IZR k * PI) (Z.to_nat (- k))).
    rewrite INR_IZR_INZ, Z2Nat.id by lia.
    rewrite opp_IZR. f_equal. ring.
Qed.

Lemma sin_period_Z (a : R) (k : Z) : sin (a + 2 * IZR k * PI) = sin a.
Proof.
  destruct (Z_le_gt_dec 0 k) as [Hk | Hk].
  - rewrite <- (Z2Nat.id k Hk), <- INR_IZR_INZ. apply sin_period.
  - rewrite <- (sin_period (a + 2 * IZR k * PI) (Z.to_nat (- k))).
    rewrite INR_IZR_INZ, Z2Nat.id by lia.
    rewrite opp_IZR. f_equal. ring.
Qed.

Lemma rotateY_period (a : R) (k : Z) (v : THREE.Vector3) :
  THREE.rotateY (a + 2 * IZR k * PI) v = THREE.rotateY a v.
Proof.
  unfold THREE.rotateY. rewrite cos_period_Z, sin_period_Z. reflexivity.
Qed.

Lemma orbitObjects_advance (d : R) (ns : list MainJs.PlanetNode) :
  MainJs.orbitObjects (map (MainJs.advanceNode d) ns)
  = map (MainJs.advance d) (MainJs.orbitObjects ns).
Proof.
  unfold MainJs.orbitObjects.
  induction ns as [|n ns IH]; cbn; [reflexivity |].
  rewrite IH, map_app. reflexivity.
Qed.

Section MainJsFrames.

Variable Controls : Type.
Variable controls_update :
  Controls -> THREE.PerspectiveCamera -> Controls * THREE.PerspectiveCamera.

Lemma render_orbitObjects (t : R) (s : MainJs.State Controls) :
  MainJs.orbitObjects (MainJs.nodes (MainJs.render Controls controls_update t s))
  = map (MainJs.advance ((t - MainJs.previousTime s) * 0.001))
        (MainJs.orbitObjects (MainJs.nodes s)).
Proof. unfold MainJs.render. cbn. apply orbitObjects_advance. Qed.

Lemma renderAll_pivotAngles (n : nat) (deltaMs : R) :
  forall s : MainJs.State Controls,
    map pivotAngle
        (MainJs.orbitObjects
           (MainJs.nodes
              (MainJs.renderAll Controls controls_update
                 (frameTimes (MainJs.previousTime s) deltaMs n) s)))
    = map (fun o => pivotAngle o
                    + INR n * MainJs.obj_orbitSpeed o * (deltaMs * 0.001) * 60)
          (MainJs.orbitObjects (MainJs.nodes s)).
Proof.
  induction n as [|n IH]; intros s.
  - cbn. apply map_ext. intros o. ring.
  - cbn [frameTimes MainJs.renderAll fold_left].
    pose proof (IH (MainJs.render Controls controls_update
                      (MainJs.previousTime s + deltaMs) s)) as H.
    rewrite render_orbitObjects, map_map in H.
    unfold MainJs.renderAll in H.
    change (MainJs.previousTime
              (MainJs.render Controls controls_update
                 (MainJs.previousTime s + deltaMs) s))
      with (MainJs.previousTime s + deltaMs) in H.
    rewrite H. apply map_ext. intros o.
    unfold pivotAngle. cbn [MainJs.advance MainJs.pivot MainJs.obj_orbitSpeed
                            THREE.rotation_y].
    rewrite S_INR. ring.
Qed.

End MainJsFrames.

Lemma app_frames_angles (n : nat) :
  forall s : AppJs.State,
    map (fun p => AppJs.angle (AppJs.userData p))
        (AppJs.planets (AppJs.run (repeat AnimationFrame n) s))
    = map (fun p => AppJs.angle (AppJs.userData p)
                    + INR n * AppJs.ud_speed (AppJs.userData p))
          (AppJs.planets s).
Proof.
  induction n as [|n IH]; intros s.
  - cbn. apply map_ext. intros p. ring.
  - cbn [repeat AppJs.run fold_left AppJs.handle].
    pose proof (IH (AppJs.animate s)) as H. unfold AppJs.run in H.
    rewrite H. cbn [AppJs.animate AppJs.updateCamera AppJs.updatePlanets
                    AppJs.planets].
    rewrite map_map. apply map_ext. intros p.
    cbn [AppJs.updatePlanet AppJs.userData AppJs.angle AppJs.ud_speed].
    rewrite S_INR. ring.
Qed.

(** C3.  main.js: after [N] calls of [render] whose timestamps are
    [deltaMs] milliseconds apart, that is with [deltaSeconds = deltaMs *
    0.001] in each of them, the orbit angle (pivot rotation) of every entry
    of [orbitObjects] is its initial value plus [N * orbitSpeed *
    deltaSeconds * 60]; and the world position of a planet or satellite is
    the same for pivot angles that differ by a multiple of [2 * PI].
    app.js (plain per-frame increment): after [N] frames the angle of every
    planet is its initial value plus [N * speed], and the position that
    [updatePlanets] computes is the same for angles that differ by a
    multiple of [2 * PI]. *)
Theorem C3_orbit_angle_after_frames :
  (forall (Controls : Type)
          (controls_update :
             Controls -> THREE.PerspectiveCamera ->
             Controls * THREE.PerspectiveCamera)
          (s : MainJs.State Controls) (N : nat) (deltaMs : R),
     map pivotAngle
         (MainJs.orbitObjects
            (MainJs.nodes
               (MainJs.renderAll Controls controls_update
                  (frameTimes (MainJs.previousTime s) deltaMs N) s)))
     = map (fun o => pivotAngle o
                     + INR N * MainJs.obj_orbitSpeed o * (deltaMs * 0.001) * 60)
           (MainJs.orbitObjects (MainJs.nodes s))) /\
  (forall (p sat : MainJs.OrbitObject) (k : Z),
     MainJs.planetWorldPosition (turnPivot (2 * IZR k * PI) p)
     = MainJs.planetWorldPosition p /\
     MainJs.satelliteWorldPosition (turnPivot (2 * IZR k * PI) p) sat
     = MainJs.satelliteWorldPosition p sat /\
     MainJs.satelliteWorldPosition p (turnPivot (2 * IZR k * PI) sat)
     = MainJs.satelliteWorldPosition p sat) /\
  (forall (s : AppJs.State) (N : nat),
     map (fun p => AppJs.angle (AppJs.userData p))
         (AppJs.planets (AppJs.run (repeat AnimationFrame N) s))
     = map (fun p => AppJs.angle (AppJs.userData p)
                     + INR N * AppJs.ud_speed (AppJs.userData p))
           (AppJs.planets s)) /\
  (forall (r a speed : R) (pos pos' : THREE.Vector3) (k : Z),
     AppJs.planet_position
       (AppJs.updatePlanet
          (AppJs.mkPlanet (AppJs.mkUserData r (a + 2 * IZR k * PI) speed) pos))
     = AppJs.planet_position
         (AppJs.updatePlanet
            (AppJs.mkPlanet (AppJs.mkUserData r a speed) pos'))).
Proof.
  split; [| split; [| split]].
  - intros Controls controls_update s N deltaMs.
    apply renderAll_pivotAngles.
  - intros p sat k.
    unfold MainJs.planetWorldPosition, MainJs.satelliteWorldPosition,
      THREE.localToParent, turnPivot.
    cbn [MainJs.pivot MainJs.mesh THREE.rotation_y THREE.obj_position].
    rewrite !rotateY_period. repeat split; reflexivity.
  - intros s N. apply app_frames_angles.
  - intros r a speed pos pos' k. cbn.
    replace (a + 2 * IZR k * PI + speed) with (a + speed + 2 * IZR k * PI)
      by ring.
    rewrite cos_period_Z, sin_period_Z. reflexivity.
Qed.

(** ** The concrete orbit scenario *)

Lemma cos_0012_bounds : 0.999928 <= cos 0.012 <= 0.99992801.
Proof.
  assert (H1 : -2 <= 0.012) by lra.
  assert (H2 : 0.012 <= 2) by lra.
  pose proof (pre_cos_bound 0.012 0 H1 H2) as H.
  unfold cos_approx, cos_term in H. cbn in H. lra.
Qed.

Lemma sin_0012_bounds : 0.011999712 <= sin 0.012 <= 0.01199971201.
Proof.
  assert (H1 : 0 <= 0.012) by lra.
  assert (H2 : 0.012 <= 4) by lra.
  pose proof (pre_sin_bound 0.012 0 H1 H2) as H.
  unfold sin_approx, sin_term in H. cbn in H. lra.
Qed.

(** C4.  One call of [updatePlanets] on a body with the orbit radius 12 and
    speed 0.012 (those of Earth in [PLANETS]) at angle 0 gives angle 0.012
    and position (12 cos 0.012, 0, 12 sin 0.012); the y-component is exactly
    0, and the x- and z-components are within 1e-5 of 11.99914 and
    0.14399. *)
Theorem C4_earth_one_frame :
  MainJs.distance MainJs.Earth = 12 /\
  MainJs.orbitSpeed MainJs.Earth = 0.012 /\
  forall (pos : THREE.Vector3) (cam : THREE.PerspectiveCamera)
         (ren : THREE.WebGLRenderer) (input : AppJs.JoystickVector)
         (phi theta : R),
    let body := AppJs.mkPlanet (AppJs.mkUserData 12 0 0.012) pos in
    let body' := AppJs.updatePlanet body in
    AppJs.planets
      (AppJs.updatePlanets (AppJs.mkState cam ren [body] input phi theta))
    = [body'] /\
    AppJs.angle (AppJs.userData body') = 0.012 /\
    AppJs.planet_position body'
    = THREE.mkVector3 (12 * cos 0.012) 0 (12 * sin 0.012) /\
    THREE.y (AppJs.planet_position body') = 0 /\
    Rabs (THREE.x (AppJs.planet_position body') - 11.99914) < 0.00001 /\
    Rabs (THREE.z (AppJs.planet_position body') - 0.14399) < 0.00001.
Proof.
  split; [reflexivity | split; [reflexivity |]].
  intros pos cam ren input phi theta body body'.
  split; [reflexivity |].
  subst body body'. cbn.
  replace (0 + 0.012) with 0.012 by lra.
  pose proof cos_0012_bounds as Hc.
  pose proof sin_0012_bounds as Hs.
  split; [reflexivity | split; [reflexivity | split; [reflexivity |]]].
  split; apply Rabs_def1; lra.
Qed.

(** ** Satellites *)

Lemma makeOrbitObject_posed (config : MainJs.BodyConfig) :
  MainJs.makeOrbitObject config = posed config 0 0.
Proof. reflexivity. Qed.

Lemma advance_posed (config : MainJs.BodyConfig) (d a r : R) :
  MainJs.advance d (posed config a r)
  = posed config (a + MainJs.orbitSpeed config * d * 60)
                 (r + MainJs.rotationSpeed config * d * 60).
Proof. reflexivity. Qed.

Lemma rotateY_rotateY (a b : R) (v : THREE.Vector3) :
  THREE.rotateY a (THREE.rotateY b v) = THREE.rotateY (a + b) v.
Proof.
  unfold THREE.rotateY. cbn. rewrite cos_plus, sin_plus.
  f_equal; ring.
Qed.

Lemma rotateY_add (a : R) (v w : THREE.Vector3) :
  THREE.rotateY a (THREE.add v w)
  = THREE.add (THREE.rotateY a v) (THREE.rotateY a w).
Proof. unfold THREE.rotateY, THREE.add. cbn. f_equal; ring. Qed.

Lemma add_zero_l (v : THREE.Vector3) : THREE.add THREE.zero v = v.
Proof.
  destruct v as [vx vy vz]. unfold THREE.add, THREE.zero. cbn.
  f_equal; ring.
Qed.

(** The world position of a satellite is the world position of its planet
    plus the satellite's offset turned by the three angles on the way up:
    the planet's orbit angle, the planet's own rotation and the satellite's
    orbit angle. *)
Lemma satelliteWorldPosition_posed (P S : MainJs.BodyConfig) (a r b q : R) :
  MainJs.satelliteWorldPosition (posed P a r) (posed S b q)
  = THREE.add (MainJs.planetWorldPosition (posed P a r))
              (THREE.rotateY (a + r + b)
                             (THREE.mkVector3 (MainJs.distance S) 0 0)).
Proof.
  unfold MainJs.satelliteWorldPosition, MainJs.planetWorldPosition,
    THREE.localToParent, posed.
  cbn [MainJs.pivot MainJs.mesh THREE.rotation_y THREE.obj_position].
  rewrite !add_zero_l, rotateY_add, !rotateY_rotateY. reflexivity.
Qed.

(** Two rotations about the Y axis that send a point off the axis to the
    same place have the same cosine and sine. *)
Lemma rotation_determined (X W ca sa ca' sa' : R) :
  0 < X ->
  ca * X - sa * W = ca' * X - sa' * W ->
  sa * X + ca * W = sa' * X + ca' * W ->
  ca = ca' /\ sa = sa'.
Proof.
  intros HX E1 E2.
  assert (Hn : 0 < X * X + W * W) by nra.
  assert (Hu : (ca - ca') * (X * X + W * W) = 0).
  { replace ((ca - ca') * (X * X + W * W))
      with (X * ((ca * X - sa * W) - (ca' * X - sa' * W))
            + W * ((sa * X + ca * W) - (sa' * X + ca' * W))) by ring.
    rewrite E1, E2. ring. }
  assert (Hv : (sa - sa') * (X * X + W * W) = 0).
  { replace ((sa - sa') * (X * X + W * W))
      with (X * ((sa * X + ca * W) - (sa' * X + ca' * W))
            - W * ((ca * X - sa * W) - (ca' * X - sa' * W))) by ring.
    rewrite E1, E2. ring. }
  apply Rmult_integral in Hu, Hv.
  split; [destruct Hu | destruct Hv]; lra.
Qed.

Lemma satellite_follows_parent (P S : MainJs.BodyConfig) (a a' r b q : R) :
  0 <= MainJs.distance S < MainJs.distance P ->
  cos (a - a') <> 1 ->
  MainJs.satelliteWorldPosition (posed P a r) (posed S b q)
  <> MainJs.satelliteWorldPosition (posed P a' r) (posed S b q).
Proof.
  intros Hd Hcos Heq. apply Hcos.
  rewrite !satelliteWorldPosition_posed in Heq.
  replace (a + r + b) with (a + (r + b)) in Heq by ring.
  replace (a' + r + b) with (a' + (r + b)) in Heq by ring.
  unfold MainJs.planetWorldPosition, THREE.localToParent, posed in Heq.
  cbn [MainJs.pivot MainJs.mesh THREE.rotation_y THREE.obj_position] in Heq.
  rewrite !add_zero_l in Heq.
  unfold THREE.rotateY, THREE.add in Heq. cbn in Heq.
  injection Heq as Ex Ez.
  remember (r + b) as t eqn:Et. clear Et.
  rewrite !cos_plus in Ex. rewrite !sin_plus in Ez.
  set (D := MainJs.distance P) in *. set (d := MainJs.distance S) in *.
  pose proof (COS_bound t) as Hct.
  assert (Hoff : 0 <= d * (cos t + 1)) by (apply Rmult_le_pos; lra).
  destruct (rotation_determined (D + d * cos t) (d * sin t)
              (cos a) (sin a) (cos a') (sin a')) as [Hc Hs].
  - lra.
  - lra.
  - lra.
  - rewrite cos_minus, <- Hc, <- Hs.
    pose proof (sin2_cos2 a) as H. unfold Rsqr in H. lra.
Qed.

(** C6.  main.js builds for Earth a planet pivot holding the planet mesh and,
    as a child of that mesh, the pivot holding the Moon.  The world position
    of a satellite is the planet's transform (pivot, then mesh) applied to
    the satellite's offset in the planet's frame, that is the planet's world
    position plus the satellite's offset turned by the angles on the way up.
    For the Moon of Earth, two orbit angles of Earth that differ by more
    than a whole number of turns give two different world positions of the
    Moon, whatever the (fixed) angles of the Moon. *)
Theorem C6_satellite_compound_motion :
  MainJs.buildNode MainJs.Earth
  = MainJs.mkPlanetNode (posed MainJs.Earth 0 0) [posed MainJs.Moon 0 0] /\
  (forall (P S : MainJs.BodyConfig) (a r b q : R),
     MainJs.satelliteWorldPosition (posed P a r) (posed S b q)
     = THREE.localToParent (MainJs.pivot (posed P a r))
         (THREE.localToParent (MainJs.mesh (posed P a r))
            (THREE.rotateY b (THREE.mkVector3 (MainJs.distance S) 0 0))) /\
     MainJs.satelliteWorldPosition (posed P a r) (posed S b q)
     = THREE.add (MainJs.planetWorldPosition (posed P a r))
                 (THREE.rotateY (a + r + b)
                                (THREE.mkVector3 (MainJs.distance S) 0 0))) /\
  (forall a a' r b q : R,
     cos (a - a') <> 1 ->
     MainJs.satelliteWorldPosition (posed MainJs.Earth a r)
                                   (posed MainJs.Moon b q)
     <> MainJs.satelliteWorldPosition (posed MainJs.Earth a' r)
                                      (posed MainJs.Moon b q)).
Proof.
  split; [reflexivity | split].
  - intros P S a r b q. split.
    + unfold MainJs.satelliteWorldPosition, THREE.localToParent at 3, posed.
      cbn [MainJs.pivot MainJs.mesh THREE.rotation_y THREE.obj_position].
      rewrite add_zero_l. reflexivity.
    + apply satelliteWorldPosition_posed.
  - intros a a' r b q. apply satellite_follows_parent. cbn. lra.
Qed.

Lemma C6_satellite_compound_motion_witness :
  cos (PI - 0) <> 1 /\
  MainJs.satelliteWorldPosition (posed MainJs.Earth PI 0)
                                (posed MainJs.Moon 0 0)
  <> MainJs.satelliteWorldPosition (posed MainJs.Earth 0 0)
                                   (posed MainJs.Moon 0 0).
Proof.
  assert (H : cos (PI - 0) <> 1).
  { rewrite Rminus_0_r, cos_PI. lra. }
  split; [exact H |].
  apply (proj2 (proj2 C6_satellite_compound_motion) PI 0 0 0 0 H).
Defined.

(** ** The input vector *)

Lemma script_onMove_in_range (data : nipplejs.EventData) (s : ScriptJs.State) :
  0 <= nipplejs.distance data ->
  scriptInputInRange (ScriptJs.onMove data s).
Proof.
  intros Hd. unfold scriptInputInRange, ScriptJs.onMove. cbn.
  set (m := Rmin (nipplejs.distance data / 50) 1).
  assert (Hm : 0 <= m <= 1).
  { split; [apply Rmin_glb; lra | apply Rmin_r]. }
  pose proof (COS_bound (nipplejs.angle_radian data)) as Hc.
  pose proof (SIN_bound (nipplejs.angle_radian data)) as Hs.
  split; split; nra.
Qed.

Lemma script_handle_in_range (s : ScriptJs.State) (e : Event) :
  wellFormed e -> scriptInputInRange s ->
  scriptInputInRange (ScriptJs.handle s e).
Proof.
  intros Hwf H. destruct e; cbn.
  - apply script_onMove_in_range. apply Hwf.
  - unfold scriptInputInRange. cbn. lra.
  - exact H.
  - exact H.
Qed.

Lemma script_run_in_range (es : list Event) :
  forall s, Forall wellFormed es -> scriptInputInRange s ->
            scriptInputInRange (ScriptJs.run es s).
Proof.
  induction es as [|e es IH]; intros s Hwf H; cbn.
  - exact H.
  - inversion Hwf as [|? ? He Hes]; subst.
    apply IH; [exact Hes |]. apply script_handle_in_range; assumption.
Qed.

Lemma app_handle_in_range (s : AppJs.State) (e : Event) :
  wellFormed e -> appInputInRange s -> appInputInRange (AppJs.handle s e).
Proof.
  intros Hwf H. destruct e; cbn.
  - unfold appInputInRange. cbn. destruct Hwf as (_ & Hx & Hy). tauto.
  - unfold appInputInRange. cbn. lra.
  - exact H.
  - exact H.
Qed.

Lemma app_run_in_range (es : list Event) :
  forall s, Forall wellFormed es -> appInputInRange s ->
            appInputInRange (AppJs.run es s).
Proof.
  induction es as [|e es IH]; intros s Hwf H; cbn.
  - exact H.
  - inversion Hwf as [|? ? He Hes]; subst.
    apply IH; [exact Hes |]. apply app_handle_in_range; assumption.
Qed.

(** Events other than ['move'] do not write the input vector, except
    ['end'], which zeroes it. *)
Lemma script_run_keeps_zero (es : list Event) :
  forall s, forallb (fun e => negb (isMove e)) es = true ->
            ScriptJs.moveX s = 0 -> ScriptJs.moveY s = 0 ->
            ScriptJs.moveX (ScriptJs.run es s) = 0 /\
            ScriptJs.moveY (ScriptJs.run es s) = 0.
Proof.
  induction es as [|e es IH]; intros s Hes Hx Hy; cbn.
  - split; assumption.
  - cbn in Hes. apply andb_prop in Hes as [He Hes].
    apply IH; [exact Hes | |]; destruct e; cbn in *;
      try discriminate; try assumption; reflexivity.
Qed.

Lemma app_run_keeps_zero (es : list Event) :
  forall s, forallb (fun e => negb (isMove e)) es = true ->
            AppJs.joystickVector s = AppJs.mkJoystickVector 0 0 ->
            AppJs.joystickVector (AppJs.run es s) = AppJs.mkJoystickVector 0 0.
Proof.
  induction es as [|e es IH]; intros s Hes H; cbn.
  - exact H.
  - cbn in Hes. apply andb_prop in Hes as [He Hes].
    apply IH; [exact Hes |]; destruct e; cbn in *;
      try discriminate; try assumption; reflexivity.
Qed.

(** C7.  In both joystick variants, after any sequence of events in which
    every ['move'] event is one nipplejs can deliver (distance not negative,
    vector components in [[-1, 1]]), both components of the stored input
    vector lie in [[-1, 1]].  An ['end'] event sets both components exactly
    to 0, in any state, and they stay 0 through any later events up to the
    next ['move'] event. *)
Theorem C7_input_vector_range :
  (forall w h es,
     Forall wellFormed es ->
     scriptInputInRange (ScriptJs.run es (ScriptJs.init w h))) /\
  (forall w h random es,
     Forall wellFormed es ->
     appInputInRange (AppJs.run es (AppJs.init w h random))) /\
  (forall s,
     ScriptJs.moveX (ScriptJs.handle s JoystickEnd) = 0 /\
     ScriptJs.moveY (ScriptJs.handle s JoystickEnd) = 0) /\
  (forall s,
     AppJs.joystickVector (AppJs.handle s JoystickEnd)
     = AppJs.mkJoystickVector 0 0) /\
  (forall s es,
     forallb (fun e => negb (isMove e)) es = true ->
     ScriptJs.moveX (ScriptJs.run (JoystickEnd :: es) s) = 0 /\
     ScriptJs.moveY (ScriptJs.run (JoystickEnd :: es) s) = 0) /\
  (forall s es,
     forallb (fun e => negb (isMove e)) es = true ->
     AppJs.joystickVector (AppJs.run (JoystickEnd :: es) s)
     = AppJs.mkJoystickVector 0 0).
Proof.
  split; [| split; [| split; [| split; [| split]]]].
  - intros w h es Hwf. apply script_run_in_range; [exact Hwf |].
    unfold scriptInputInRange. cbn. lra.
  - intros w h random es Hwf. apply app_run_in_range; [exact Hwf |].
    unfold appInputInRange. cbn. lra.
  - intros s. split; reflexivity.
  - intros s. reflexivity.
  - intros s es Hes. cbn [ScriptJs.run fold_left].
    apply script_run_keeps_zero; [exact Hes | reflexivity | reflexivity].
  - intros s es Hes. cbn [AppJs.run fold_left].
    apply app_run_keeps_zero; [exact Hes | reflexivity].
Qed.

Lemma C7_input_vector_range_witness :
  Forall wellFormed [JoystickMove fullRight; AnimationFrame; JoystickEnd] /\
  scriptInputInRange
    (ScriptJs.run [JoystickMove fullRight; AnimationFrame; JoystickEnd]
                  (ScriptJs.init 800 600)) /\
  forallb (fun e => negb (isMove e)) [AnimationFrame; Resize 1600 900] = true /\
  ScriptJs.moveX
    (ScriptJs.run (JoystickEnd :: [AnimationFrame; Resize 1600 900])
                  (ScriptJs.onMove fullRight (ScriptJs.init 800 600))) = 0.
Proof.
  assert (Hwf : Forall wellFormed
                  [JoystickMove fullRight; AnimationFrame; JoystickEnd]).
  { repeat constructor; cbn; lra. }
  split; [exact Hwf |]. split.
  - apply (proj1 C7_input_vector_range 800 600 _ Hwf).
  - split; [reflexivity |].
    apply (proj1 (proj2 (proj2 (proj2 (proj2 C7_input_vector_range))))
                 (ScriptJs.onMove fullRight (ScriptJs.init 800 600))
                 [AnimationFrame; Resize 1600 900] eq_refl).
Defined.

(** ** Resize *)

(** C8.  In all three variants the resize listener, run when the window has
    become 1600 x 900, sets the camera aspect to 1600 / 900 (and recomputes
    the projection from it), sets the renderer output size to (1600, 900),
    and leaves the scene state as it was: bodies, camera position, look-at
    target, fov and clipping planes, camera angles, input vector, and in
    main.js the controls and the clock.  Before it, a page loaded at
    800 x 600 has aspect 800 / 600 and output size (800, 600). *)
Theorem C8_resize :
  (forall s,
     let s' := ScriptJs.handle s (Resize 1600 900) in
     THREE.aspect (ScriptJs.camera s') = 1600 / 900 /\
     THREE.projection (ScriptJs.camera s')
     = (THREE.fov (ScriptJs.camera s), 1600 / 900,
        THREE.near (ScriptJs.camera s), THREE.far (ScriptJs.camera s)) /\
     ScriptJs.renderer s' = THREE.mkRenderer 1600 900 /\
     scriptScene s' = scriptScene s) /\
  (forall s,
     let s' := AppJs.handle s (Resize 1600 900) in
     THREE.aspect (AppJs.camera s') = 1600 / 900 /\
     THREE.projection (AppJs.camera s')
     = (THREE.fov (AppJs.camera s), 1600 / 900,
        THREE.near (AppJs.camera s), THREE.far (AppJs.camera s)) /\
     AppJs.renderer s' = THREE.mkRenderer 1600 900 /\
     appScene s' = appScene s) /\
  (forall (Controls : Type) (s : MainJs.State Controls),
     let s' := MainJs.onResize Controls 1600 900 s in
     THREE.aspect (MainJs.camera s') = 1600 / 900 /\
     THREE.projection (MainJs.camera s')
     = (THREE.fov (MainJs.camera s), 1600 / 900,
        THREE.near (MainJs.camera s), THREE.far (MainJs.camera s)) /\
     MainJs.renderer s' = THREE.mkRenderer 1600 900 /\
     mainScene s' = mainScene s) /\
  (THREE.aspect (ScriptJs.camera (ScriptJs.init 800 600)) = 800 / 600 /\
   ScriptJs.renderer (ScriptJs.init 800 600) = THREE.mkRenderer 800 600) /\
  (forall random,
     THREE.aspect (AppJs.camera (AppJs.init 800 600 random)) = 800 / 600 /\
     AppJs.renderer (AppJs.init 800 600 random) = THREE.mkRenderer 800 600) /\
  (forall (Controls : Type) (controls0 : Controls),
     THREE.aspect (MainJs.camera (MainJs.init Controls 800 600 controls0))
     = 800 / 600 /\
     MainJs.renderer (MainJs.init Controls 800 600 controls0)
     = THREE.mkRenderer 800 600).
Proof.
  repeat split; reflexivity.
Qed.

(** ** Orbit angles only grow *)

Lemma Forall2_Rlt_map {A : Type} (f g : A -> R) (l : list A) :
  Forall (fun a => f a < g a) l -> Forall2 Rlt (map f l) (map g l).
Proof.
  induction 1 as [|a l Ha Hl IH]; cbn; constructor; assumption.
Qed.

Lemma script_run_pivots (es : list Event) :
  forall s,
    ScriptJs.planetPivots (ScriptJs.run es s)
    = map (fun obj =>
             ScriptJs.mkPivotEntry
               (THREE.mkObject3D
                  (THREE.obj_position (ScriptJs.pivot obj))
                  (THREE.rotation_y (ScriptJs.pivot obj)
                   + INR (frameCount es) * ScriptJs.pivot_speed obj))
               (ScriptJs.mesh obj) (ScriptJs.pivot_speed obj))
          (ScriptJs.planetPivots s).
Proof.
  induction es as [|e es IH]; intros s.
  - cbn. rewrite <- (map_id (ScriptJs.planetPivots s)) at 1.
    apply map_ext. intros [[p r] m sp]. cbn. do 2 f_equal. ring.
  - cbn [ScriptJs.run fold_left]. fold (ScriptJs.run es (ScriptJs.handle s e)).
    rewrite IH. destruct e; cbn [ScriptJs.handle frameCount];
      try reflexivity.
    cbn [ScriptJs.animate ScriptJs.planetPivots]. rewrite map_map.
    apply map_ext. intros [[p r] m sp]. cbn [ScriptJs.rotatePivot
      ScriptJs.pivot ScriptJs.mesh ScriptJs.pivot_speed THREE.obj_position
      THREE.rotation_y].
    rewrite S_INR. do 2 f_equal. ring.
Qed.

Lemma app_run_angles_speeds (es : list Event) :
  forall s,
    map (fun p => (AppJs.angle (AppJs.userData p),
                   AppJs.ud_speed (AppJs.userData p)))
        (AppJs.planets (AppJs.run es s))
    = map (fun p => (AppJs.angle (AppJs.userData p)
                     + INR (frameCount es) * AppJs.ud_speed (AppJs.userData p),
                     AppJs.ud_speed (AppJs.userData p)))
          (AppJs.planets s).
Proof.
  induction es as [|e es IH]; intros s.
  - cbn. apply map_ext. intros p. f_equal. ring.
  - cbn [AppJs.run fold_left]. fold (AppJs.run es (AppJs.handle s e)).
    rewrite IH. destruct e; cbn [AppJs.handle frameCount]; try reflexivity.
    cbn [AppJs.animate AppJs.updateCamera AppJs.updatePlanets AppJs.planets].
    rewrite map_map. apply map_ext. intros p.
    cbn [AppJs.updatePlanet AppJs.userData AppJs.angle AppJs.ud_speed].
    rewrite S_INR. f_equal. ring.
Qed.

Lemma script_speeds_positive (w h : R) (es : list Event) :
  Forall (fun obj => 0 < ScriptJs.pivot_speed obj)
         (ScriptJs.planetPivots (ScriptJs.run es (ScriptJs.init w h))).
Proof.
  rewrite script_run_pivots. apply Forall_map. cbn.
  repeat constructor; cbn; lra.
Qed.

Lemma app_speeds_positive (w h : R) (random : nat -> R) (es : list Event) :
  Forall (fun p => 0 < AppJs.ud_speed (AppJs.userData p))
         (AppJs.planets (AppJs.run es (AppJs.init w h random))).
Proof.
  pose proof (app_run_angles_speeds es (AppJs.init w h random)) as H.
  apply (f_equal (map snd)) in H. rewrite !map_map in H. cbn [snd] in H.
  apply Forall_map with (f := fun p => AppJs.ud_speed (AppJs.userData p))
                        (P := fun v => 0 < v).
  rewrite H. cbn. repeat constructor; lra.
Qed.

Lemma script_angles_grow (w h : R) (es1 es2 : list Event) :
  Forall2 Rlt
    (scriptAngles (ScriptJs.run es1 (ScriptJs.init w h)))
    (scriptAngles
       (ScriptJs.run (es1 ++ AnimationFrame :: es2) (ScriptJs.init w h))).
Proof.
  rewrite ScriptJsFacts.script_run_app. unfold scriptAngles.
  rewrite (script_run_pivots (AnimationFrame :: es2)), map_map.
  apply Forall2_Rlt_map.
  eapply Forall_impl; [| apply script_speeds_positive].
  intros obj Hsp. cbn [ScriptJs.pivot THREE.rotation_y frameCount].
  rewrite S_INR. pose proof (pos_INR (frameCount es2)). nra.
Qed.

Lemma app_angles_grow (w h : R) (random : nat -> R) (es1 es2 : list Event) :
  Forall2 Rlt
    (appAngles (AppJs.run es1 (AppJs.init w h random)))
    (appAngles
       (AppJs.run (es1 ++ AnimationFrame :: es2) (AppJs.init w h random))).
Proof.
  rewrite AppJsFacts.app_run_app. unfold appAngles.
  pose proof (app_run_angles_speeds (AnimationFrame :: es2)
                (AppJs.run es1 (AppJs.init w h random))) as H.
  apply (f_equal (map fst)) in H. rewrite !map_map in H. cbn [fst] in H.
  rewrite H. apply Forall2_Rlt_map.
  eapply Forall_impl; [| apply app_speeds_positive].
  intros p Hsp. cbn [frameCount].
  rewrite S_INR. pose proof (pos_INR (frameCount es2)). nra.
Qed.

(** C10.  Every orbit speed of [planetsData] (script.js), of [orbitData]
    (app.js) and of [PLANETS] and the Moon (main.js) is strictly positive.
    In every state of script.js and of app.js reachable from the initial
    one, a frame strictly increases the orbit angle of every planet, and so
    does any sequence of events that contains at least one frame: along a
    run the orbit angles strictly increase with the number of frames. *)
Theorem C10_orbit_angles_increase :
  Forall (fun d => 0 < ScriptJs.speed d) ScriptJs.planetsData /\
  Forall (fun d => 0 < AppJs.speed d) AppJs.orbitData /\
  Forall (fun c => 0 < MainJs.orbitSpeed c) (MainJs.Moon :: MainJs.PLANETS) /\
  (forall w h es,
     let s := ScriptJs.run es (ScriptJs.init w h) in
     Forall2 Rlt (scriptAngles s) (scriptAngles (ScriptJs.animate s))) /\
  (forall w h random es,
     let s := AppJs.run es (AppJs.init w h random) in
     Forall2 Rlt (appAngles s) (appAngles (AppJs.animate s))) /\
  (forall w h es1 es2,
     Forall2 Rlt
       (scriptAngles (ScriptJs.run es1 (ScriptJs.init w h)))
       (scriptAngles
          (ScriptJs.run (es1 ++ AnimationFrame :: es2) (ScriptJs.init w h)))) /\
  (forall w h random es1 es2,
     Forall2 Rlt
       (appAngles (AppJs.run es1 (AppJs.init w h random)))
       (appAngles
          (AppJs.run (es1 ++ AnimationFrame :: es2)
                     (AppJs.init w h random)))).
Proof.
  split; [| split; [| split; [| split; [| split; [| split]]]]].
  - unfold ScriptJs.planetsData. repeat constructor; cbn; lra.
  - unfold AppJs.orbitData. repeat constructor; cbn; lra.
  - unfold MainJs.PLANETS. repeat constructor; cbn; lra.
  - intros w h es s.
    pose proof (script_angles_grow w h es []) as H.
    rewrite ScriptJsFacts.script_run_app in H. exact H.
  - intros w h random es s.
    pose proof (app_angles_grow w h random es []) as H.
    rewrite AppJsFacts.app_run_app in H. exact H.
  - apply script_angles_grow.
  - apply app_angles_grow.
Qed.

(** * Further properties of the code *)

(** ** main.js: frames and elapsed time *)

Lemma advance_advance (d1 d2 : R) (o : MainJs.OrbitObject) :
  MainJs.advance d2 (MainJs.advance d1 o) = MainJs.advance (d1 + d2) o.
Proof. unfold MainJs.advance. cbn. f_equal; f_equal; ring. Qed.

Lemma advance_0 (o : MainJs.OrbitObject) : MainJs.advance 0 o = o.
Proof.
  destruct o as [[pp pr] [mp mr] os rs]. unfold MainJs.advance. cbn.
  f_equal; f_equal; ring.
Qed.

Lemma advanceNode_advanceNode (d1 d2 : R) (n : MainJs.PlanetNode) :
  MainJs.advanceNode d2 (MainJs.advanceNode d1 n)
  = MainJs.advanceNode (d1 + d2) n.
Proof.
  unfold MainJs.advanceNode. cbn. rewrite advance_advance, map_map.
  f_equal. apply map_ext. intros o. apply advance_advance.
Qed.

Lemma advanceNode_0 (n : MainJs.PlanetNode) : MainJs.advanceNode 0 n = n.
Proof.
  destruct n as [p sats]. unfold MainJs.advanceNode. cbn.
  rewrite advance_0. f_equal.
  rewrite <- (map_id sats) at 2. apply map_ext. intros o. apply advance_0.
Qed.

Lemma last_cons_default {A : Type} (a d : A) (l : list A) :
  last (a :: l) d = last l a.
Proof.
  revert a d. induction l as [|b l IH]; intros a d; [reflexivity |].
  change (last (a :: b :: l) d) with (last (b :: l) d).
  rewrite (IH b d), (IH b a). reflexivity.
Qed.

Section MainJsClock.

Variable Controls : Type.
Variable controls_update :
  Controls -> THREE.PerspectiveCamera -> Controls * THREE.PerspectiveCamera.

Lemma renderAll_nodes (ts : list R) :
  forall s : MainJs.State Controls,
    MainJs.nodes (MainJs.renderAll Controls controls_update ts s)
    = map (MainJs.advanceNode
             ((last ts (MainJs.previousTime s) - MainJs.previousTime s)
              * 0.001))
          (MainJs.nodes s) /\
    MainJs.previousTime (MainJs.renderAll Controls controls_update ts s)
    = last ts (MainJs.previousTime s).
Proof.
  induction ts as [|t ts IH]; intros s.
  - cbn. split; [| reflexivity].
    replace ((MainJs.previousTime s - MainJs.previousTime s) * 0.001)
      with 0 by ring.
    rewrite <- (map_id (MainJs.nodes s)) at 1.
    apply map_ext. intros n. symmetry. apply advanceNode_0.
  - rewrite last_cons_default.
    change (MainJs.renderAll Controls controls_update (t :: ts) s)
      with (MainJs.renderAll Controls controls_update ts
              (MainJs.render Controls controls_update t s)).
    destruct (IH (MainJs.render Controls controls_update t s)) as [Hn Ht].
    cbn [MainJs.render MainJs.previousTime MainJs.nodes] in Hn, Ht.
    split; [| exact Ht].
    rewrite Hn, map_map. apply map_ext. intros n.
    rewrite advanceNode_advanceNode. f_equal. ring.
Qed.

End MainJsClock.

(** X1.  main.js: the bodies after [render] has been called at any
    timestamps are the bodies after a single call at the last of them: the
    orbit and self-rotation angles depend on the elapsed time only, not on
    the number of frames or their spacing.  Each orbit angle has grown by
    [orbitSpeed * 0.001 * 60] per millisecond elapsed, each self-rotation
    angle by [rotationSpeed * 0.001 * 60]. *)
Theorem X1_render_depends_on_elapsed_time :
  forall (Controls : Type)
         (controls_update :
            Controls -> THREE.PerspectiveCamera ->
            Controls * THREE.PerspectiveCamera)
         (ts : list R) (s : MainJs.State Controls),
    let t0 := MainJs.previousTime s in
    let s' := MainJs.renderAll Controls controls_update ts s in
    MainJs.nodes s'
    = MainJs.nodes (MainJs.render Controls controls_update (last ts t0) s) /\
    MainJs.previousTime s' = last ts t0 /\
    map pivotAngle (MainJs.orbitObjects (MainJs.nodes s'))
    = map (fun o => pivotAngle o
                    + MainJs.obj_orbitSpeed o
                      * ((last ts t0 - t0) * 0.001) * 60)
          (MainJs.orbitObjects (MainJs.nodes s)) /\
    map meshAngle (MainJs.orbitObjects (MainJs.nodes s'))
    = map (fun o => meshAngle o
                    + MainJs.obj_rotationSpeed o
                      * ((last ts t0 - t0) * 0.001) * 60)
          (MainJs.orbitObjects (MainJs.nodes s)).
Proof.
  intros Controls controls_update ts s t0 s'.
  destruct (renderAll_nodes Controls controls_update ts s) as [Hn Ht].
  fold t0 in Hn, Ht. fold s' in Hn, Ht.
  split; [exact Hn | split; [exact Ht |]].
  rewrite Hn, orbitObjects_advance, !map_map.
  split; apply map_ext; intros o; reflexivity.
Qed.

(** X2.  main.js: a call of [render] whose timestamp equals the previous
    one (zero elapsed time) leaves every pivot and mesh as it is. *)
Theorem X2_render_zero_delta :
  forall (Controls : Type)
         (controls_update :
            Controls -> THREE.PerspectiveCamera ->
            Controls * THREE.PerspectiveCamera)
         (s : MainJs.State Controls),
    MainJs.nodes
      (MainJs.render Controls controls_update (MainJs.previousTime s) s)
    = MainJs.nodes s.
Proof.
  intros Controls controls_update s. cbn.
  replace ((MainJs.previousTime s - MainJs.previousTime s) * 0.001)
    with 0 by ring.
  rewrite <- (map_id (MainJs.nodes s)) at 2.
  apply map_ext. intros n. apply advanceNode_0.
Qed.

(** ** main.js: the scene graph *)

Lemma planetWorldPosition_posed (P : MainJs.BodyConfig) (a r : R) :
  MainJs.planetWorldPosition (posed P a r)
  = THREE.rotateY a (THREE.mkVector3 (MainJs.distance P) 0 0).
Proof.
  unfold MainJs.planetWorldPosition, THREE.localToParent, posed.
  cbn [MainJs.pivot MainJs.mesh THREE.rotation_y THREE.obj_position].
  apply add_zero_l.
Qed.

Lemma rotateY_x_axis_length (a d : R) :
  THREE.length (THREE.rotateY a (THREE.mkVector3 d 0 0)) = Rabs d.
Proof.
  unfold THREE.length, THREE.rotateY. cbn.
  rewrite <- sqrt_Rsqr_abs. f_equal. unfold Rsqr.
  pose proof (sin2_cos2 a) as H. unfold Rsqr in H.
  replace ((cos a * d + sin a * 0) * (cos a * d + sin a * 0) + 0 * 0 +
           (- sin a * d + cos a * 0) * (- sin a * d + cos a * 0))
    with (d * d * (sin a * sin a + cos a * cos a)) by ring.
  rewrite H. ring.
Qed.

Lemma rotateY_x_axis_same (A A' d : R) :
  d <> 0 ->
  THREE.rotateY A (THREE.mkVector3 d 0 0)
  = THREE.rotateY A' (THREE.mkVector3 d 0 0) ->
  cos (A - A') = 1.
Proof.
  intros Hd H. unfold THREE.rotateY in H. cbn in H.
  injection H as Hx Hz.
  assert (Hc : cos A = cos A').
  { apply (Rmult_eq_reg_r d); [lra | exact Hd]. }
  assert (Hs : sin A = sin A').
  { apply (Rmult_eq_reg_r d); [lra | exact Hd]. }
  rewrite cos_minus, Hc, Hs.
  pose proof (sin2_cos2 A') as H. unfold Rsqr in H. lra.
Qed.

Lemma add_cancel_l (p v w : THREE.Vector3) :
  THREE.add p v = THREE.add p w -> v = w.
Proof.
  destruct p as [px py pz], v as [vx vy vz], w as [wx wy wz].
  unfold THREE.add. cbn. intros H. injection H as Hx Hy Hz.
  f_equal; lra.
Qed.

(** X3.  main.js: the pivot of a satellite is a child of the planet mesh,
    which [render] turns about its own axis.  The self-rotation of a planet
    does not move the planet, but it does move its satellites: two
    self-rotation angles of the planet that differ by more than whole turns
    give two different world positions of a satellite that is off the
    planet's axis.  One frame turns the satellite about its planet, seen
    from the scene, by the sum of the planet's orbit speed, the planet's
    rotation speed and the satellite's orbit speed (times [deltaSeconds *
    60]). *)
Theorem X3_self_rotation_carries_satellites :
  (forall (P : MainJs.BodyConfig) (a r r' : R),
     MainJs.planetWorldPosition (posed P a r)
     = MainJs.planetWorldPosition (posed P a r')) /\
  (forall (P S : MainJs.BodyConfig) (a r r' b q : R),
     MainJs.distance S <> 0 ->
     cos (r - r') <> 1 ->
     MainJs.satelliteWorldPosition (posed P a r) (posed S b q)
     <> MainJs.satelliteWorldPosition (posed P a r') (posed S b q)) /\
  (forall (P S : MainJs.BodyConfig) (a r b q d : R),
     MainJs.satelliteWorldPosition (MainJs.advance d (posed P a r))
                                   (MainJs.advance d (posed S b q))
     = THREE.add
         (MainJs.planetWorldPosition (MainJs.advance d (posed P a r)))
         (THREE.rotateY
            (a + r + b
             + (MainJs.orbitSpeed P + MainJs.rotationSpeed P
                + MainJs.orbitSpeed S) * d * 60)
            (THREE.mkVector3 (MainJs.distance S) 0 0))).
Proof.
  split; [| split].
  - intros P a r r'. rewrite !planetWorldPosition_posed. reflexivity.
  - intros P S a r r' b q Hd Hcos Heq. apply Hcos.
    rewrite !satelliteWorldPosition_posed, !planetWorldPosition_posed in Heq.
    apply add_cancel_l, (rotateY_x_axis_same _ _ _ Hd) in Heq.
    replace (r - r') with (a + r + b - (a + r' + b)) by ring. exact Heq.
  - intros P S a r b q d. rewrite !advance_posed.
    rewrite satelliteWorldPosition_posed. do 2 f_equal. ring.
Qed.

Lemma X3_self_rotation_carries_satellites_witness :
  MainJs.distance MainJs.Moon <> 0 /\ cos (PI - 0) <> 1 /\
  MainJs.satelliteWorldPosition (posed MainJs.Earth 0 PI)
                                (posed MainJs.Moon 0 0)
  <> MainJs.satelliteWorldPosition (posed MainJs.Earth 0 0)
                                   (posed MainJs.Moon 0 0).
Proof.
  assert (Hd : MainJs.distance MainJs.Moon <> 0) by (cbn; lra).
  assert (Hc : cos (PI - 0) <> 1) by (rewrite Rminus_0_r, cos_PI; lra).
  split; [exact Hd | split; [exact Hc |]].
  apply (proj1 (proj2 X3_self_rotation_carries_satellites)
               MainJs.Earth MainJs.Moon 0 PI 0 0 0 Hd Hc).
Defined.

(** X4.  main.js: whatever the angles, a planet mesh is at distance
    [|distance|] from the origin (the sun) and a satellite mesh at distance
    [|distance|] from its planet, both in the plane y = 0: the orbits are
    coplanar circles, the satellite's one centred on the moving planet. *)
Theorem X4_orbits_are_circles :
  forall (P S : MainJs.BodyConfig) (a r b q : R),
    THREE.length (MainJs.planetWorldPosition (posed P a r))
    = Rabs (MainJs.distance P) /\
    THREE.y (MainJs.planetWorldPosition (posed P a r)) = 0 /\
    THREE.distanceTo
      (MainJs.satelliteWorldPosition (posed P a r) (posed S b q))
      (MainJs.planetWorldPosition (posed P a r))
    = Rabs (MainJs.distance S) /\
    THREE.y (MainJs.satelliteWorldPosition (posed P a r) (posed S b q)) = 0.
Proof.
  intros P S a r b q.
  rewrite satelliteWorldPosition_posed, planetWorldPosition_posed.
  split; [apply rotateY_x_axis_length |].
  split; [reflexivity |]. split.
  - rewrite <- (rotateY_x_axis_length (a + r + b) (MainJs.distance S)).
    unfold THREE.distanceTo, THREE.length, THREE.add. cbn.
    f_equal. ring.
  - cbn. ring.
Qed.

(** ** main.js: the starfield *)

Lemma star_length (u1 u2 u3 : R) :
  0 <= u1 -> THREE.length (MainJs.star u1 u2 u3) = 150 + u1 * 150.
Proof.
  intros Hu. unfold THREE.length, MainJs.star. cbn.
  set (r := 150 + u1 * 150). set (phi := acos (2 * u3 - 1)).
  set (theta := u2 * PI * 2).
  pose proof (sin2_cos2 phi) as Hp. pose proof (sin2_cos2 theta) as Ht.
  unfold Rsqr in Hp, Ht.
  replace (r * sin phi * cos theta * (r * sin phi * cos theta) +
           r * sin phi * sin theta * (r * sin phi * sin theta) +
           r * cos phi * (r * cos phi))
    with (r * r * (sin phi * sin phi
                   * (sin theta * sin theta + cos theta * cos theta)
                   + cos phi * cos phi)) by ring.
  rewrite Ht.
  replace (sin phi * sin phi * 1 + cos phi * cos phi)
    with (sin phi * sin phi + cos phi * cos phi) by ring.
  rewrite Hp, Rmult_1_r. apply sqrt_square. unfold r. nra.
Qed.

(** X5.  main.js: when [Math.random] returns values of [[0, 1)], every star
    lies at a distance of at least 150 and less than 300 from the origin,
    its height is [r * (2 u - 1)] for its radius [r] and its third random
    value [u], and the array of [count] stars has [3 * count] entries. *)
Theorem X5_stars_in_shell :
  forall (random : nat -> R) (count : nat),
    (forall k, 0 <= random k < 1) ->
    Forall (fun v => 150 <= THREE.length v < 300)
           (MainJs.stars random count) /\
    (forall i,
       THREE.z (MainJs.star (random (3 * i)%nat) (random (3 * i + 1)%nat)
                            (random (3 * i + 2)%nat))
       = (150 + random (3 * i)%nat * 150)
         * (2 * random (3 * i + 2)%nat - 1)) /\
    List.length (MainJs.starPositions random count) = (3 * count)%nat.
Proof.
  intros random count Hr. split; [| split].
  - unfold MainJs.stars. apply Forall_map, Forall_forall.
    intros i _. pose proof (Hr (3 * i)%nat) as H.
    rewrite star_length by lra. lra.
  - intros i. unfold MainJs.star. cbn [THREE.z].
    pose proof (Hr (3 * i + 2)%nat) as H.
    rewrite cos_acos by lra. reflexivity.
  - unfold MainJs.starPositions.
    rewrite (flat_map_constant_length (c := 3%nat)) by reflexivity.
    unfold MainJs.stars. rewrite length_map, length_seq. lia.
Qed.

Lemma X5_stars_in_shell_witness :
  (forall k : nat, 0 <= (fun _ : nat => 0) k < 1) /\
  List.length (MainJs.starPositions (fun _ => 0) 2) = (3 * 2)%nat.
Proof.
  assert (H : forall k : nat, 0 <= (fun _ : nat => 0) k < 1)
    by (intros k; cbn; lra).
  split; [exact H |].
  apply (proj2 (proj2 (X5_stars_in_shell (fun _ => 0) 2 H))).
Defined.

(** ** The joystick handlers *)

(** X6.  script.js: for a ['move'] event with a distance that is not
    negative, the stored input vector has length [min(distance / 50, 1)]:
    it lies in the unit disc, on the unit circle from distance 50 on, and
    points in the direction of the event's angle. *)
Theorem X6_script_input_in_unit_disc :
  forall (data : nipplejs.EventData) (s : ScriptJs.State),
    0 <= nipplejs.distance data ->
    let s' := ScriptJs.onMove data s in
    let m := Rmin (nipplejs.distance data / 50) 1 in
    0 <= m <= 1 /\
    ScriptJs.moveX s' = m * cos (nipplejs.angle_radian data) /\
    ScriptJs.moveY s' = m * sin (nipplejs.angle_radian data) /\
    ScriptJs.moveX s' * ScriptJs.moveX s' + ScriptJs.moveY s' * ScriptJs.moveY s'
    = m * m /\
    ScriptJs.moveX s' * ScriptJs.moveX s' + ScriptJs.moveY s' * ScriptJs.moveY s'
    <= 1 /\
    (50 <= nipplejs.distance data -> m = 1).
Proof.
  intros data s Hd s' m.
  assert (Hm : 0 <= m <= 1).
  { unfold m. split; [apply Rmin_glb; lra | apply Rmin_r]. }
  pose proof (sin2_cos2 (nipplejs.angle_radian data)) as H.
  unfold Rsqr in H.
  assert (Hsq : ScriptJs.moveX s' * ScriptJs.moveX s'
                + ScriptJs.moveY s' * ScriptJs.moveY s' = m * m).
  { subst s'. cbn. fold m.
    replace (cos (nipplejs.angle_radian data) * m
             * (cos (nipplejs.angle_radian data) * m)
             + sin (nipplejs.angle_radian data) * m
               * (sin (nipplejs.angle_radian data) * m))
      with (m * m * (sin (nipplejs.angle_radian data)
                     * sin (nipplejs.angle_radian data)
                     + cos (nipplejs.angle_radian data)
                       * cos (nipplejs.angle_radian data))) by ring.
    rewrite H. ring. }
  split; [exact Hm |].
  split; [subst s'; cbn; fold m; ring |].
  split; [subst s'; cbn; fold m; ring |].
  split; [exact Hsq |].
  split; [rewrite Hsq; nra |].
  intros H50. unfold m. apply Rmin_right. lra.
Qed.

Lemma X6_script_input_in_unit_disc_witness :
  0 <= nipplejs.distance fullRight /\
  ScriptJs.moveX (ScriptJs.onMove fullRight (ScriptJs.init 800 600))
  * ScriptJs.moveX (ScriptJs.onMove fullRight (ScriptJs.init 800 600))
  + ScriptJs.moveY (ScriptJs.onMove fullRight (ScriptJs.init 800 600))
    * ScriptJs.moveY (ScriptJs.onMove fullRight (ScriptJs.init 800 600))
  <= 1.
Proof.
  assert (H : 0 <= nipplejs.distance fullRight) by (cbn; lra).
  split; [exact H |].
  apply (X6_script_input_in_unit_disc fullRight (ScriptJs.init 800 600) H).
Defined.

(** X7.  Both joystick variants: joystick events are not queued.  A
    ['move'] or ['end'] event overwrites whatever an earlier joystick event
    stored, so a frame only ever sees the latest one. *)
Theorem X7_last_joystick_event_wins :
  (forall (s : ScriptJs.State) (e1 e2 : Event),
     isJoystick e1 = true -> isJoystick e2 = true ->
     ScriptJs.run [e1; e2] s = ScriptJs.run [e2] s) /\
  (forall (s : AppJs.State) (e1 e2 : Event),
     isJoystick e1 = true -> isJoystick e2 = true ->
     AppJs.run [e1; e2] s = AppJs.run [e2] s).
Proof.
  split; intros s e1 e2 H1 H2;
    destruct e1; try discriminate H1;
    destruct e2; try discriminate H2; reflexivity.
Qed.

Lemma X7_last_joystick_event_wins_witness :
  isJoystick (JoystickMove fullRight) = true /\
  isJoystick JoystickEnd = true /\
  ScriptJs.run [JoystickMove fullRight; JoystickEnd] (ScriptJs.init 800 600)
  = ScriptJs.run [JoystickEnd] (ScriptJs.init 800 600).
Proof.
  split; [reflexivity | split; [reflexivity |]].
  apply (proj1 X7_last_joystick_event_wins (ScriptJs.init 800 600)
               (JoystickMove fullRight) JoystickEnd eq_refl eq_refl).
Defined.

(** ** Resize and the scene *)

Lemma script_scene_handle (s1 s2 : ScriptJs.State) (e : Event) :
  scriptScene s1 = scriptScene s2 ->
  scriptScene (ScriptJs.handle s1 e) = scriptScene (ScriptJs.handle s2 e).
Proof.
  destruct s1 as [[f1 a1 n1 fr1 p1 l1 pr1] r1 pp1 y1 pi1 mx1 my1].
  destruct s2 as [[f2 a2 n2 fr2 p2 l2 pr2] r2 pp2 y2 pi2 mx2 my2].
  unfold scriptScene, cameraPose. cbn. intros H.
  injection H as -> -> -> -> -> -> -> -> -> ->.
  destruct e; reflexivity.
Qed.

Lemma app_scene_handle (s1 s2 : AppJs.State) (e : Event) :
  appScene s1 = appScene s2 ->
  appScene (AppJs.handle s1 e) = appScene (AppJs.handle s2 e).
Proof.
  destruct s1 as [[f1 a1 n1 fr1 p1 l1 pr1] r1 pl1 j1 ph1 th1].
  destruct s2 as [[f2 a2 n2 fr2 p2 l2 pr2] r2 pl2 j2 ph2 th2].
  unfold appScene, cameraPose. cbn. intros H.
  injection H as -> -> -> -> -> -> -> -> ->.
  destruct e; reflexivity.
Qed.

Lemma script_scene_run (es : list Event) :
  forall s1 s2,
    scriptScene s1 = scriptScene s2 ->
    scriptScene (ScriptJs.run es s1)
    = scriptScene
        (ScriptJs.run (filter (fun e => negb (isResize e)) es) s2).
Proof.
  induction es as [|e es IH]; intros s1 s2 H; [exact H |].
  cbn [ScriptJs.run fold_left filter].
  destruct (isResize e) eqn:He; cbn [negb].
  - apply IH. destruct e; try discriminate He. exact H.
  - cbn [fold_left]. apply IH, script_scene_handle, H.
Qed.

Lemma app_scene_run (es : list Event) :
  forall s1 s2,
    appScene s1 = appScene s2 ->
    appScene (AppJs.run es s1)
    = appScene (AppJs.run (filter (fun e => negb (isResize e)) es) s2).
Proof.
  induction es as [|e es IH]; intros s1 s2 H; [exact H |].
  cbn [AppJs.run fold_left filter].
  destruct (isResize e) eqn:He; cbn [negb].
  - apply IH. destruct e; try discriminate He. exact H.
  - cbn [fold_left]. apply IH, app_scene_handle, H.
Qed.

(** X8.  Both joystick variants: resize events have no influence on the
    scene.  After any sequence of events the scene state (bodies, camera
    pose and angles, input vector) is the one reached by the same sequence
    with the resize events taken out. *)
Theorem X8_resize_never_affects_scene :
  (forall (es : list Event) (s : ScriptJs.State),
     scriptScene (ScriptJs.run es s)
     = scriptScene
         (ScriptJs.run (filter (fun e => negb (isResize e)) es) s)) /\
  (forall (es : list Event) (s : AppJs.State),
     appScene (AppJs.run es s)
     = appScene (AppJs.run (filter (fun e => negb (isResize e)) es) s)).
Proof.
  split; intros es s.
  - apply script_scene_run. reflexivity.
  - apply app_scene_run. reflexivity.
Qed.

Lemma script_run_viewport (es : list Event) :
  forall (s : ScriptJs.State) (w h : R),
    THREE.aspect (ScriptJs.camera s) = w / h ->
    THREE.projection (ScriptJs.camera s)
    = (THREE.fov (ScriptJs.camera s), w / h,
       THREE.near (ScriptJs.camera s), THREE.far (ScriptJs.camera s)) ->
    ScriptJs.renderer s = THREE.mkRenderer w h ->
    let s' := ScriptJs.run es s in
    THREE.aspect (ScriptJs.camera s')
    = fst (lastSize es w h) / snd (lastSize es w h) /\
    THREE.projection (ScriptJs.camera s')
    = (THREE.fov (ScriptJs.camera s),
       fst (lastSize es w h) / snd (lastSize es w h),
       THREE.near (ScriptJs.camera s), THREE.far (ScriptJs.camera s)) /\
    ScriptJs.renderer s'
    = THREE.mkRenderer (fst (lastSize es w h)) (snd (lastSize es w h)).
Proof.
  induction es as [|e es IH]; intros s w h Ha Hp Hr; cbn zeta.
  - cbn. auto.
  - cbn [ScriptJs.run fold_left].
    destruct e as [data | | w' h' |]; cbn [lastSize ScriptJs.handle].
    + apply (IH (ScriptJs.onMove data s) w h); assumption.
    + apply (IH (ScriptJs.onEnd s) w h); assumption.
    + apply (IH (ScriptJs.onResize w' h' s) w' h'); reflexivity.
    + apply (IH (ScriptJs.animate s) w h); assumption.
Qed.

Lemma app_run_viewport (es : list Event) :
  forall (s : AppJs.State) (w h : R),
    THREE.aspect (AppJs.camera s) = w / h ->
    THREE.projection (AppJs.camera s)
    = (THREE.fov (AppJs.camera s), w / h,
       THREE.near (AppJs.camera s), THREE.far (AppJs.camera s)) ->
    AppJs.renderer s = THREE.mkRenderer w h ->
    let s' := AppJs.run es s in
    THREE.aspect (AppJs.camera s')
    = fst (lastSize es w h) / snd (lastSize es w h) /\
    THREE.projection (AppJs.camera s')
    = (THREE.fov (AppJs.camera s),
       fst (lastSize es w h) / snd (lastSize es w h),
       THREE.near (AppJs.camera s), THREE.far (AppJs.camera s)) /\
    AppJs.renderer s'
    = THREE.mkRenderer (fst (lastSize es w h)) (snd (lastSize es w h)).
Proof.
  induction es as [|e es IH]; intros s w h Ha Hp Hr; cbn zeta.
  - cbn. auto.
  - cbn [AppJs.run fold_left].
    destruct e as [data | | w' h' |]; cbn [lastSize AppJs.handle].
    + apply (IH (AppJs.onMove data s) w h); assumption.
    + apply (IH (AppJs.onEnd s) w h); assumption.
    + apply (IH (AppJs.onResize w' h' s) w' h'); reflexivity.
    + apply (IH (AppJs.animate s) w h); assumption.
Qed.

(** X9.  Both joystick variants: after any sequence of events that starts
    with the page loaded in a [w0] x [h0] window, the camera aspect, the
    aspect the projection was computed from and the renderer output size
    are those of the last window size the page was told about, with field
    of view 60 and clipping planes 0.1 and 1000 untouched. *)
Theorem X9_viewport_follows_last_resize :
  (forall (w0 h0 : R) (es : list Event),
     let s' := ScriptJs.run es (ScriptJs.init w0 h0) in
     let w := fst (lastSize es w0 h0) in
     let h := snd (lastSize es w0 h0) in
     THREE.aspect (ScriptJs.camera s') = w / h /\
     THREE.projection (ScriptJs.camera s') = (60, w / h, 0.1, 1000) /\
     ScriptJs.renderer s' = THREE.mkRenderer w h) /\
  (forall (w0 h0 : R) (random : nat -> R) (es : list Event),
     let s' := AppJs.run es (AppJs.init w0 h0 random) in
     let w := fst (lastSize es w0 h0) in
     let h := snd (lastSize es w0 h0) in
     THREE.aspect (AppJs.camera s') = w / h /\
     THREE.projection (AppJs.camera s') = (60, w / h, 0.1, 1000) /\
     AppJs.renderer s' = THREE.mkRenderer w h).
Proof.
  split.
  - intros w0 h0 es.
    apply (script_run_viewport es (ScriptJs.init w0 h0) w0 h0); reflexivity.
  - intros w0 h0 random es.
    apply (app_run_viewport es (AppJs.init w0 h0 random) w0 h0); reflexivity.
Qed.

(** ** The camera under a held input *)

Lemma clamp_hi (m v : R) :
  0 <= m -> m <= v -> Rmax (- m) (Rmin m v) = m.
Proof.
  intros Hm Hv. rewrite Rmin_left by exact Hv. apply Rmax_right. lra.
Qed.

Lemma clamp_lo (m v : R) :
  0 <= m -> v <= - m -> Rmax (- m) (Rmin m v) = - m.
Proof.
  intros Hm Hv. rewrite Rmin_right by lra. apply Rmax_left. exact Hv.
Qed.

(** Clamped steps of constant size from a value of the range add up like
    plain steps, clamped once. *)
Lemma clamp_walk (m p c k : R) :
  0 <= m -> - m <= p <= m -> 0 <= k ->
  Rmax (- m) (Rmin m (Rmax (- m) (Rmin m (p + c)) + k * c))
  = Rmax (- m) (Rmin m (p + (k + 1) * c)).
Proof.
  intros Hm Hp Hk.
  replace (p + (k + 1) * c) with (p + c + k * c) by ring.
  assert (Hpos : 0 <= c -> 0 <= k * c) by (intros; nra).
  assert (Hneg : c <= 0 -> k * c <= 0) by (intros; nra).
  set (kc := k * c) in *. clearbody kc.
  destruct (Rle_dec (p + c) (- m)) as [Hlo | Hlo].
  - rewrite (clamp_lo m (p + c)) by assumption.
    rewrite !clamp_lo; try assumption; try reflexivity;
      destruct (Rle_dec 0 c); lra.
  - destruct (Rle_dec m (p + c)) as [Hhi | Hhi].
    + rewrite (clamp_hi m (p + c)) by assumption.
      rewrite !clamp_hi; try assumption; try reflexivity;
        destruct (Rle_dec 0 c); lra.
    + rewrite (clamp_id m (p + c)) by lra. reflexivity.
Qed.

Lemma clamp_odd (m v : R) :
  0 <= m -> Rmax (- m) (Rmin m (- v)) = - Rmax (- m) (Rmin m v).
Proof.
  intros Hm.
  destruct (Rle_dec v (- m)) as [Hlo | Hlo].
  - rewrite (clamp_lo m v), (clamp_hi m (- v)) by lra. ring.
  - destruct (Rle_dec m v) as [Hhi | Hhi].
    + rewrite (clamp_hi m v), (clamp_lo m (- v)) by lra. reflexivity.
    + rewrite (clamp_id m v), (clamp_id m (- v)) by lra. reflexivity.
Qed.

Lemma maxPolar_nonneg : 0 <= PI / 2 - 0.1.
Proof. pose proof maxPolar_pos as H. unfold maxPolar in H. lra. Qed.

Lemma script_held_input (n : nat) :
  forall s : ScriptJs.State,
    polarBounded (ScriptJs.pitch s) ->
    let s' := ScriptJs.run (repeat AnimationFrame n) s in
    ScriptJs.yaw s' = ScriptJs.yaw s - INR n * (ScriptJs.moveX s * 0.05) /\
    ScriptJs.pitch s'
    = Rmax (- (PI / 2 - 0.1))
           (Rmin (PI / 2 - 0.1)
                 (ScriptJs.pitch s + INR n * (ScriptJs.moveY s * 0.05))).
Proof.
  induction n as [|n IH]; intros s Hb; cbn zeta.
  - cbn. split; [ring |].
    replace (ScriptJs.pitch s + 0 * (ScriptJs.moveY s * 0.05))
      with (ScriptJs.pitch s) by ring.
    symmetry. apply clamp_id.
    apply polarBounded_range in Hb. exact Hb.
  - cbn [repeat ScriptJs.run fold_left ScriptJs.handle].
    destruct (IH (ScriptJs.animate s)
                 (ScriptJsFacts.animate_pitch_bounded s)) as [Hy Hp].
    unfold ScriptJs.run in Hy, Hp. rewrite Hy, Hp.
    cbn [ScriptJs.animate ScriptJs.yaw ScriptJs.pitch ScriptJs.moveX
         ScriptJs.moveY].
    rewrite S_INR. split; [ring |].
    apply polarBounded_range in Hb. unfold maxPolar in Hb.
    apply clamp_walk; [apply maxPolar_nonneg | exact Hb | apply pos_INR].
Qed.

Lemma app_held_input (n : nat) :
  forall s : AppJs.State,
    polarBounded (AppJs.theta s) ->
    let s' := AppJs.run (repeat AnimationFrame n) s in
    AppJs.phi s'
    = AppJs.phi s - INR n * (AppJs.jx (AppJs.joystickVector s) * 0.05) /\
    AppJs.theta s'
    = Rmax (- (PI / 2 - 0.1))
           (Rmin (PI / 2 - 0.1)
                 (AppJs.theta s
                  + INR n * (- (AppJs.jy (AppJs.joystickVector s) * 0.05)))).
Proof.
  induction n as [|n IH]; intros s Hb; cbn zeta.
  - cbn. split; [ring |].
    replace (AppJs.theta s + 0 * - (AppJs.jy (AppJs.joystickVector s) * 0.05))
      with (AppJs.theta s) by ring.
    symmetry. apply clamp_id.
    apply polarBounded_range in Hb. exact Hb.
  - cbn [repeat AppJs.run fold_left AppJs.handle].
    destruct (IH (AppJs.animate s)
                 (AppJsFacts.animate_theta_bounded s)) as [Hy Hp].
    unfold AppJs.run in Hy, Hp. rewrite Hy, Hp.
    cbn [AppJs.animate AppJs.updateCamera AppJs.updatePlanets AppJs.phi
         AppJs.theta AppJs.joystickVector].
    rewrite S_INR. split; [ring |].
    apply polarBounded_range in Hb. unfold maxPolar in Hb.
    replace (AppJs.theta s - AppJs.jy (AppJs.joystickVector s) * 0.05)
      with (AppJs.theta s + - (AppJs.jy (AppJs.joystickVector s) * 0.05))
      by ring.
    apply clamp_walk; [apply maxPolar_nonneg | exact Hb | apply pos_INR].
Qed.

(** X10.  Both joystick variants: while the input vector is held for [n]
    frames, starting from a polar angle within bounds, the azimuth moves
    linearly and without bound, [yaw - n * x * 0.05], and the polar angle is
    the linear value clamped once, [clamp (pitch + n * y * 0.05)] in
    script.js and [clamp (theta - n * y * 0.05)] in app.js: once the linear
    value has passed a bound the angle stays on that bound. *)
Theorem X10_held_input_closed_form :
  (forall (n : nat) (s : ScriptJs.State),
     polarBounded (ScriptJs.pitch s) ->
     let s' := ScriptJs.run (repeat AnimationFrame n) s in
     ScriptJs.yaw s' = ScriptJs.yaw s - INR n * (ScriptJs.moveX s * 0.05) /\
     ScriptJs.pitch s'
     = Rmax (- maxPolar)
            (Rmin maxPolar
                  (ScriptJs.pitch s + INR n * (ScriptJs.moveY s * 0.05))) /\
     (maxPolar <= ScriptJs.pitch s + INR n * (ScriptJs.moveY s * 0.05) ->
      ScriptJs.pitch s' = maxPolar)) /\
  (forall (n : nat) (s : AppJs.State),
     polarBounded (AppJs.theta s) ->
     let s' := AppJs.run (repeat AnimationFrame n) s in
     AppJs.phi s'
     = AppJs.phi s - INR n * (AppJs.jx (AppJs.joystickVector s) * 0.05) /\
     AppJs.theta s'
     = Rmax (- maxPolar)
            (Rmin maxPolar
                  (AppJs.theta s
                   - INR n * (AppJs.jy (AppJs.joystickVector s) * 0.05))) /\
     (maxPolar
      <= AppJs.theta s - INR n * (AppJs.jy (AppJs.joystickVector s) * 0.05) ->
      AppJs.theta s' = maxPolar)).
Proof.
  pose proof maxPolar_pos as Hm.
  split.
  - intros n s Hb s'. destruct (script_held_input n s Hb) as [Hy Hp].
    fold s' in Hy, Hp. fold maxPolar in Hp.
    split; [exact Hy | split; [exact Hp |]].
    intros Hge. rewrite Hp, Rmin_left by exact Hge.
    apply Rmax_right. lra.
  - intros n s Hb s'. destruct (app_held_input n s Hb) as [Hy Hp].
    fold s' in Hy, Hp. fold maxPolar in Hp.
    replace (AppJs.theta s
             + INR n * - (AppJs.jy (AppJs.joystickVector s) * 0.05))
      with (AppJs.theta s
            - INR n * (AppJs.jy (AppJs.joystickVector s) * 0.05)) in Hp
      by ring.
    split; [exact Hy | split; [exact Hp |]].
    intros Hge. rewrite Hp, Rmin_left by exact Hge.
    apply Rmax_right. lra.
Qed.

Lemma X10_held_input_closed_form_witness :
  polarBounded (ScriptJs.pitch (ScriptJs.init 800 600)) /\
  ScriptJs.yaw (ScriptJs.run (repeat AnimationFrame 3) (ScriptJs.init 800 600))
  = ScriptJs.yaw (ScriptJs.init 800 600)
    - INR 3 * (ScriptJs.moveX (ScriptJs.init 800 600) * 0.05).
Proof.
  split; [exact polarBounded_0 |].
  apply (proj1 X10_held_input_closed_form 3%nat (ScriptJs.init 800 600)
               polarBounded_0).
Defined.

(** ** The camera stays off the vertical axis *)

Lemma spherical_off_axis (r p a : R) :
  0 < r -> polarBounded p ->
  let v := spherical r p a in
  THREE.x v * THREE.x v + THREE.z v * THREE.z v
  = (r * cos p) * (r * cos p) /\
  0 < THREE.x v * THREE.x v + THREE.z v * THREE.z v /\
  Rabs (THREE.y v) < r.
Proof.
  intros Hr [_ [Hlo Hhi]]. cbn.
  pose proof (cos_gt_0 p Hlo Hhi) as Hc.
  pose proof (sin2_cos2 a) as Ha. pose proof (sin2_cos2 p) as Hp.
  unfold Rsqr in Ha, Hp.
  assert (Hxz : r * cos p * sin a * (r * cos p * sin a)
                + r * cos p * cos a * (r * cos p * cos a)
                = r * cos p * (r * cos p)).
  { replace (r * cos p * sin a * (r * cos p * sin a)
             + r * cos p * cos a * (r * cos p * cos a))
      with (r * cos p * (r * cos p) * (sin a * sin a + cos a * cos a))
      by ring.
    rewrite Ha. ring. }
  split; [exact Hxz |]. split.
  - rewrite Hxz. assert (0 < r * cos p) by (apply Rmult_lt_0_compat; lra).
    nra.
  - assert (Hs : -1 < sin p < 1) by (split; nra).
    apply Rabs_def1; nra.
Qed.

(** X11.  Both joystick variants: after every frame, and after any further
    events, the camera is off the vertical axis through the look-at target:
    its squared horizontal distance from the axis is [(R cos polar)^2 > 0]
    and its height is strictly less than [R] in absolute value, so the
    camera never reaches a pole. *)
Theorem X11_camera_off_the_axis :
  (forall (es1 es2 : list Event) (s : ScriptJs.State),
     let s' := ScriptJs.run (es1 ++ AnimationFrame :: es2) s in
     let v := THREE.position (ScriptJs.camera s') in
     THREE.x v * THREE.x v + THREE.z v * THREE.z v
     = (ScriptJs.camRadius * cos (ScriptJs.pitch s'))
       * (ScriptJs.camRadius * cos (ScriptJs.pitch s')) /\
     0 < THREE.x v * THREE.x v + THREE.z v * THREE.z v /\
     Rabs (THREE.y v) < ScriptJs.camRadius) /\
  (forall (es1 es2 : list Event) (s : AppJs.State),
     let s' := AppJs.run (es1 ++ AnimationFrame :: es2) s in
     let v := THREE.position (AppJs.camera s') in
     THREE.x v * THREE.x v + THREE.z v * THREE.z v
     = (AppJs.cameraDistance * cos (AppJs.theta s'))
       * (AppJs.cameraDistance * cos (AppJs.theta s')) /\
     0 < THREE.x v * THREE.x v + THREE.z v * THREE.z v /\
     Rabs (THREE.y v) < AppJs.cameraDistance).
Proof.
  split; intros es1 es2 s s' v.
  - destruct (script_settled_after_frame es1 es2 s) as (Hpos & _ & Hb).
    fold s' in Hpos, Hb. subst v. rewrite Hpos.
    apply spherical_off_axis; [unfold ScriptJs.camRadius; lra | exact Hb].
  - destruct (app_settled_after_frame es1 es2 s) as (Hpos & _ & Hb).
    fold s' in Hpos, Hb. subst v. rewrite Hpos.
    apply spherical_off_axis; [unfold AppJs.cameraDistance; lra | exact Hb].
Qed.

(** ** The two joystick variants side by side *)

Lemma mirror_handle (a : ScriptJs.State) (b : AppJs.State) (e : Event) :
  consistent e ->
  ScriptJs.yaw a = AppJs.phi b /\ ScriptJs.pitch a = - AppJs.theta b /\
  ScriptJs.moveX a = AppJs.jx (AppJs.joystickVector b) /\
  ScriptJs.moveY a = AppJs.jy (AppJs.joystickVector b) ->
  ScriptJs.yaw (ScriptJs.handle a e) = AppJs.phi (AppJs.handle b e) /\
  ScriptJs.pitch (ScriptJs.handle a e) = - AppJs.theta (AppJs.handle b e) /\
  ScriptJs.moveX (ScriptJs.handle a e)
  = AppJs.jx (AppJs.joystickVector (AppJs.handle b e)) /\
  ScriptJs.moveY (ScriptJs.handle a e)
  = AppJs.jy (AppJs.joystickVector (AppJs.handle b e)).
Proof.
  intros Hc (Hy & Hp & Hx & Hv). destruct e as [data | | w h |]; cbn.
  - destruct Hc as [Hcx Hcy]. rewrite Hcx, Hcy. auto.
  - auto.
  - auto.
  - rewrite Hy, Hp, Hx, Hv. split; [reflexivity |].
    split; [| split; reflexivity].
    rewrite <- clamp_odd by apply maxPolar_nonneg. do 2 f_equal. ring.
Qed.

(** X12.  The two joystick variants map the vertical input with opposite
    signs.  Fed the same events (each ['move'] event carrying the vector
    that matches its angle and distance), script.js and app.js always have
    the same input vector and the same azimuth, and opposite polar angles;
    after a frame the camera of app.js is the one of script.js mirrored in
    the plane y = 0 and scaled from radius 30 to radius 40. *)
Theorem X12_variants_mirror_each_other :
  forall (w h : R) (random : nat -> R) (es : list Event),
    Forall consistent es ->
    let a := ScriptJs.run es (ScriptJs.init w h) in
    let b := AppJs.run es (AppJs.init w h random) in
    ScriptJs.moveX a = AppJs.jx (AppJs.joystickVector b) /\
    ScriptJs.moveY a = AppJs.jy (AppJs.joystickVector b) /\
    ScriptJs.yaw a = AppJs.phi b /\
    ScriptJs.pitch a = - AppJs.theta b /\
    (In AnimationFrame es ->
     40 * THREE.x (THREE.position (ScriptJs.camera a))
     = 30 * THREE.x (THREE.position (AppJs.camera b)) /\
     40 * THREE.y (THREE.position (ScriptJs.camera a))
     = - (30 * THREE.y (THREE.position (AppJs.camera b))) /\
     40 * THREE.z (THREE.position (ScriptJs.camera a))
     = 30 * THREE.z (THREE.position (AppJs.camera b))).
Proof.
  intros w h random es Hes a b.
  assert (Hinv : ScriptJs.yaw a = AppJs.phi b /\
                 ScriptJs.pitch a = - AppJs.theta b /\
                 ScriptJs.moveX a = AppJs.jx (AppJs.joystickVector b) /\
                 ScriptJs.moveY a = AppJs.jy (AppJs.joystickVector b)).
  { subst a b.
    assert (H0 : ScriptJs.yaw (ScriptJs.init w h)
                 = AppJs.phi (AppJs.init w h random) /\
                 ScriptJs.pitch (ScriptJs.init w h)
                 = - AppJs.theta (AppJs.init w h random) /\
                 ScriptJs.moveX (ScriptJs.init w h)
                 = AppJs.jx (AppJs.joystickVector (AppJs.init w h random)) /\
                 ScriptJs.moveY (ScriptJs.init w h)
                 = AppJs.jy (AppJs.joystickVector (AppJs.init w h random))).
    { cbn. repeat split; ring. }
    revert H0. generalize (ScriptJs.init w h) (AppJs.init w h random).
    induction Hes as [|e es He Hes IH]; intros sa sb H0; [exact H0 |].
    cbn [ScriptJs.run AppJs.run fold_left].
    apply IH, mirror_handle; assumption. }
  destruct Hinv as (Hy & Hp & Hx & Hv).
  repeat (split; [assumption |]).
  intros Hin. apply in_split in Hin as (es1 & es2 & ->).
  destruct (script_settled_after_frame es1 es2 (ScriptJs.init w h))
    as (Ha & _).
  destruct (app_settled_after_frame es1 es2 (AppJs.init w h random))
    as (Hb & _).
  fold a in Ha. fold b in Hb. rewrite Ha, Hb, Hy, Hp.
  unfold spherical, ScriptJs.camRadius, AppJs.cameraDistance. cbn.
  rewrite cos_neg, sin_neg. repeat split; ring.
Qed.

Lemma fullRight_consistent : consistent (JoystickMove fullRight).
Proof.
  cbn. replace (50 / 50) with 1 by lra.
  rewrite Rmin_left by lra. rewrite cos_0, sin_0. split; ring.
Qed.

Lemma X12_variants_mirror_each_other_witness :
  Forall consistent [JoystickMove fullRight; AnimationFrame] /\
  ScriptJs.pitch
    (ScriptJs.run [JoystickMove fullRight; AnimationFrame]
                  (ScriptJs.init 800 600))
  = - AppJs.theta
        (AppJs.run [JoystickMove fullRight; AnimationFrame]
                   (AppJs.init 800 600 (fun _ => 0))).
Proof.
  assert (H : Forall consistent [JoystickMove fullRight; AnimationFrame]).
  { constructor; [exact fullRight_consistent |].
    constructor; [exact I | constructor]. }
  split; [exact H |].
  apply (X12_variants_mirror_each_other 800 600 (fun _ => 0) _ H).
Defined.

(** ** The planets of the joystick variants *)

Lemma circle_length (r cs sn : R) :
  sn * sn + cs * cs = 1 ->
  THREE.length (THREE.mkVector3 (r * cs) 0 (r * sn)) = Rabs r.
Proof.
  intros H. unfold THREE.length. cbn.
  rewrite <- sqrt_Rsqr_abs. f_equal. unfold Rsqr.
  replace (r * cs * (r * cs) + 0 * 0 + r * sn * (r * sn))
    with (r * r * (sn * sn + cs * cs)) by ring.
  rewrite H. ring.
Qed.

Lemma sin2_cos2_mult (t : R) : sin t * sin t + cos t * cos t = 1.
Proof. exact (sin2_cos2 t). Qed.

Lemma script_run_positions (w h : R) (es : list Event) :
  scriptPositions (ScriptJs.run es (ScriptJs.init w h))
  = map (fun d =>
           THREE.mkVector3
             (ScriptJs.radius d * cos (INR (frameCount es) * ScriptJs.speed d))
             0
             (ScriptJs.radius d
              * - sin (INR (frameCount es) * ScriptJs.speed d)))
        ScriptJs.planetsData.
Proof.
  unfold scriptPositions. rewrite script_run_pivots.
  cbn [ScriptJs.init ScriptJs.planetPivots]. unfold ScriptJs.planetPivots0.
  rewrite !map_map. apply map_ext. intros d.
  unfold ScriptJs.worldPosition, THREE.localToParent, THREE.rotateY,
    THREE.add.
  cbn [ScriptJs.pivot ScriptJs.mesh ScriptJs.pivot_speed THREE.obj_position
       THREE.rotation_y THREE.x THREE.y THREE.z THREE.zero].
  replace (0 + INR (frameCount es) * ScriptJs.speed d)
    with (INR (frameCount es) * ScriptJs.speed d) by ring.
  f_equal; ring.
Qed.

(** X13.  script.js: after any sequence of events containing [k] frames,
    the planet with table row [(radius, speed)] is at
    [(radius cos (k speed), 0, - radius sin (k speed))] in the scene: it
    moves on the circle of its radius around the sun, in the plane y = 0,
    from the positive x axis towards the negative z axis, and nothing but
    the number of frames determines where it is. *)
Theorem X13_script_planets_on_circles :
  forall (w h : R) (es : list Event),
    scriptPositions (ScriptJs.run es (ScriptJs.init w h))
    = map (fun d =>
             THREE.mkVector3
               (ScriptJs.radius d
                * cos (INR (frameCount es) * ScriptJs.speed d))
               0
               (ScriptJs.radius d
                * - sin (INR (frameCount es) * ScriptJs.speed d)))
          ScriptJs.planetsData /\
    map THREE.length (scriptPositions (ScriptJs.run es (ScriptJs.init w h)))
    = map ScriptJs.radius ScriptJs.planetsData.
Proof.
  intros w h es. split; [apply script_run_positions |].
  rewrite script_run_positions, map_map.
  apply map_ext_in. intros d Hd.
  rewrite circle_length.
  - apply Rabs_pos_eq.
    revert d Hd. apply Forall_forall.
    unfold ScriptJs.planetsData. repeat constructor; cbn; lra.
  - pose proof (sin2_cos2_mult (INR (frameCount es) * ScriptJs.speed d)).
    nra.
Qed.

Lemma app_run_userData (es : list Event) :
  forall s,
    map AppJs.userData (AppJs.planets (AppJs.run es s))
    = map (fun p =>
             AppJs.mkUserData
               (AppJs.orbitRadius (AppJs.userData p))
               (AppJs.angle (AppJs.userData p)
                + INR (frameCount es) * AppJs.ud_speed (AppJs.userData p))
               (AppJs.ud_speed (AppJs.userData p)))
          (AppJs.planets s).
Proof.
  induction es as [|e es IH]; intros s.
  - cbn. apply map_ext. intros [[r a sp] pos]. cbn. f_equal. ring.
  - cbn [AppJs.run fold_left]. fold (AppJs.run es (AppJs.handle s e)).
    rewrite IH. destruct e; cbn [AppJs.handle frameCount]; try reflexivity.
    cbn [AppJs.animate AppJs.updateCamera AppJs.updatePlanets AppJs.planets].
    rewrite map_map. apply map_ext. intros p.
    cbn [AppJs.updatePlanet AppJs.userData AppJs.angle AppJs.ud_speed
         AppJs.orbitRadius].
    rewrite S_INR. f_equal. ring.
Qed.

(** A planet of app.js whose position is the polar conversion of its
    current angle. *)
Lemma app_planets_placed (es1 es2 : list Event) (s : AppJs.State) :
  Forall (fun p =>
            AppJs.planet_position p
            = THREE.mkVector3
                (AppJs.orbitRadius (AppJs.userData p)
                 * cos (AppJs.angle (AppJs.userData p)))
                0
                (AppJs.orbitRadius (AppJs.userData p)
                 * sin (AppJs.angle (AppJs.userData p))))
         (AppJs.planets (AppJs.run (es1 ++ AnimationFrame :: es2) s)).
Proof.
  rewrite AppJsFacts.app_run_app.
  cbn [AppJs.run fold_left AppJs.handle].
  fold (AppJs.run es2 (AppJs.animate (AppJs.run es1 s))).
  set (P := fun p : AppJs.Planet => _).
  assert (Hframe : forall t, Forall P (AppJs.planets (AppJs.animate t))).
  { intros t. cbn. apply Forall_map, Forall_forall. intros p _. reflexivity. }
  generalize (Hframe (AppJs.run es1 s)).
  generalize (AppJs.animate (AppJs.run es1 s)).
  induction es2 as [|e es2 IH]; intros t Ht; [exact Ht |].
  cbn [AppJs.run fold_left]. apply IH.
  destruct e; try exact Ht. apply Hframe.
Qed.

(** X14.  app.js: the orbit radius and the speed of a planet never change
    and its angle after [k] frames is [2 PI random + k speed], whatever
    other events occur.  Once a frame has run, every planet is at
    [(radius cos angle, 0, radius sin angle)] for its current angle: on
    the circle of its radius around the sun, in the plane y = 0, moving
    from the positive x axis towards the positive z axis (the opposite
    sense of script.js). *)
Theorem X14_app_planets_on_circles :
  (forall (w h : R) (random : nat -> R) (es : list Event),
     map AppJs.userData
         (AppJs.planets (AppJs.run es (AppJs.init w h random)))
     = map (fun di =>
              AppJs.mkUserData
                (AppJs.radius (fst di))
                (random (snd di) * PI * 2
                 + INR (frameCount es) * AppJs.speed (fst di))
                (AppJs.speed (fst di)))
           (combine AppJs.orbitData (seq 0 (List.length AppJs.orbitData)))) /\
  (forall (es1 es2 : list Event) (s : AppJs.State),
     Forall (fun p =>
               AppJs.planet_position p
               = THREE.mkVector3
                   (AppJs.orbitRadius (AppJs.userData p)
                    * cos (AppJs.angle (AppJs.userData p)))
                   0
                   (AppJs.orbitRadius (AppJs.userData p)
                    * sin (AppJs.angle (AppJs.userData p))))
            (AppJs.planets (AppJs.run (es1 ++ AnimationFrame :: es2) s))) /\
  (forall (w h : R) (random : nat -> R) (es1 es2 : list Event),
     map (fun p => THREE.length (AppJs.planet_position p))
         (AppJs.planets
            (AppJs.run (es1 ++ AnimationFrame :: es2)
                       (AppJs.init w h random)))
     = map AppJs.radius AppJs.orbitData).
Proof.
  split; [| split].
  - intros w h random es. rewrite app_run_userData.
    cbn [AppJs.init AppJs.planets]. rewrite map_map. reflexivity.
  - apply app_planets_placed.
  - intros w h random es1 es2.
    set (s' := AppJs.run (es1 ++ AnimationFrame :: es2)
                         (AppJs.init w h random)).
    transitivity (map (fun u => Rabs (AppJs.orbitRadius u))
                      (map AppJs.userData (AppJs.planets s'))).
    + rewrite map_map. apply map_ext_in. intros p Hp.
      pose proof (app_planets_placed es1 es2 (AppJs.init w h random)) as HF.
      rewrite Forall_forall in HF. rewrite (HF p Hp).
      apply circle_length, sin2_cos2_mult.
    + subst s'. rewrite app_run_userData.
      cbn [AppJs.init AppJs.planets]. rewrite !map_map.
      cbn. rewrite !Rabs_pos_eq by lra. reflexivity.
Qed.

(** X15.  app.js: [createPlanet] starts every planet at an angle of
    [[0, 2 PI)] when [Math.random] returns values of [[0, 1)], with the
    radius and speed of its table row, and at the origin: before the first
    frame all planet meshes sit at the centre of the sun. *)
Theorem X15_app_initial_planets :
  forall (w h : R) (random : nat -> R),
    (forall i, 0 <= random i < 1) ->
    Forall (fun p =>
              0 <= AppJs.angle (AppJs.userData p) < 2 * PI /\
              AppJs.planet_position p = THREE.zero)
           (AppJs.planets (AppJs.init w h random)) /\
    map (fun p => (AppJs.orbitRadius (AppJs.userData p),
                   AppJs.ud_speed (AppJs.userData p)))
        (AppJs.planets (AppJs.init w h random))
    = map (fun d => (AppJs.radius d, AppJs.speed d)) AppJs.orbitData.
Proof.
  intros w h random Hr. split; [| reflexivity].
  cbn [AppJs.init AppJs.planets]. apply Forall_map, Forall_forall.
  intros [d i] _. cbn. split; [| reflexivity].
  pose proof (Hr i) as Hi. pose proof PI_RGT_0 as HPI. split; nra.
Qed.

Lemma X15_app_initial_planets_witness :
  (forall i : nat, 0 <= (fun _ : nat => 0) i < 1) /\
  Forall (fun p =>
            0 <= AppJs.angle (AppJs.userData p) < 2 * PI /\
            AppJs.planet_position p = THREE.zero)
         (AppJs.planets (AppJs.init 800 600 (fun _ => 0))).
Proof.
  assert (H : forall i : nat, 0 <= (fun _ : nat => 0) i < 1)
    by (intros i; cbn; lra).
  split; [exact H |].
  apply (proj1 (X15_app_initial_planets 800 600 (fun _ => 0) H)).
Defined.

(** ** main.js: from the configuration to the clock *)

Lemma orbitObjects_buildNode (configs : list MainJs.BodyConfig) :
  MainJs.orbitObjects (map MainJs.buildNode configs)
  = map MainJs.makeOrbitObject (configuredBodies configs).
Proof.
  unfold MainJs.orbitObjects, configuredBodies.
  induction configs as [|c cs IH]; [reflexivity |].
  cbn [map flat_map]. rewrite IH, map_app. f_equal.
  unfold MainJs.buildNode. cbn.
  destruct (MainJs.satellites c); reflexivity.
Qed.

(** X16.  main.js: [orbitObjects] holds one entry per planet of [PLANETS],
    each directly followed by its satellites (nine entries, the Moon after
    Earth).  Since the clock of [render] starts at 0 and every angle at 0,
    after [render] has been called at any timestamps the orbit angle of
    every body is [orbitSpeed * 0.001 * 60] times the last timestamp, and
    its self-rotation angle [rotationSpeed * 0.001 * 60] times it, whatever
    the frames in between: the first frame alone accounts for all the time
    since the page's time origin. *)
Theorem X16_angles_follow_the_clock :
  forall (Controls : Type)
         (controls_update :
            Controls -> THREE.PerspectiveCamera ->
            Controls * THREE.PerspectiveCamera)
         (w h : R) (controls0 : Controls) (t : R) (ts : list R),
    let s' := MainJs.renderAll Controls controls_update (t :: ts)
                (MainJs.init Controls w h controls0) in
    List.length (MainJs.orbitObjects (MainJs.nodes s')) = 9%nat /\
    map pivotAngle (MainJs.orbitObjects (MainJs.nodes s'))
    = map (fun c => MainJs.orbitSpeed c * (last ts t * 0.001) * 60)
          (configuredBodies MainJs.PLANETS) /\
    map meshAngle (MainJs.orbitObjects (MainJs.nodes s'))
    = map (fun c => MainJs.rotationSpeed c * (last ts t * 0.001) * 60)
          (configuredBodies MainJs.PLANETS) /\
    nth_error (configuredBodies MainJs.PLANETS) 2 = Some MainJs.Earth /\
    nth_error (configuredBodies MainJs.PLANETS) 3 = Some MainJs.Moon.
Proof.
  intros Controls controls_update w h controls0 t ts s'.
  destruct (renderAll_nodes Controls controls_update (t :: ts)
              (MainJs.init Controls w h controls0)) as [Hn _].
  fold s' in Hn. rewrite last_cons_default in Hn.
  cbn [MainJs.init MainJs.nodes MainJs.previousTime] in Hn.
  rewrite Hn, orbitObjects_advance, orbitObjects_buildNode, !map_map.
  split; [| split; [| split; [| split; reflexivity]]].
  - rewrite length_map. reflexivity.
  - apply map_ext. intros c. unfold pivotAngle. cbn. ring.
  - apply map_ext. intros c. unfold meshAngle. cbn. ring.
Qed.
